(** * Matching and scoring engine of the job recommendation platform

    A shallow embedding of the pure parts of [modules/recommender.py],
    [modules/ats_scorer.py] and [modules/visualizer.py], with the
    properties the specification states about them.

    Conventions of the embedding.
    - A Python [str] is a list of characters ([list ascii]).  The
      embedding covers text whose code points are below 256 (Latin-1); on
      that range [str.lower], [str.strip] and the regex class [\s] are
      written out as CPython defines them.
    - Python [int]s that count or index are [nat] or [Z]; salaries and the
      scores that Python computes by true division are kept as the exact
      rationals they denote ([Q]).
    - The TF-IDF vectoriser and the cosine similarity of scikit-learn are
      not part of the repository; where a function calls them they are
      taken as a parameter of a Section. *)

From Stdlib Require Import String Ascii List Bool Arith ZArith NArith QArith Lia.
From Stdlib Require Import Permutation Sorted.
From Stdlib Require Import Lqa.
Import ListNotations.

Set Implicit Arguments.

(** * The embedding *)

(** ** Python strings *)

Module PyStr.

Definition str := list ascii.

(** A literal. *)
Definition py (s : string) : str := list_ascii_of_string s.

Definition code (c : ascii) : N := N_of_ascii c.

Definition between (lo hi n : N) : bool := (N.leb lo n && N.leb n hi)%bool.

(** [Py_UNICODE_ISSPACE] below 256: TAB..CR, FS..US, SPACE, NEL, NBSP.
    It is what the regex class [\s] and [str.strip()] use. *)
Definition is_space (c : ascii) : bool :=
  let n := code c in
  (between 9 13 n || between 28 32 n || N.eqb n 133 || N.eqb n 160)%bool.

(** The regex class [a-z0-9]. *)
Definition is_az09 (c : ascii) : bool :=
  let n := code c in (between 97 122 n || between 48 57 n)%bool.

(** [str.lower] on one character: A-Z and the Latin-1 capitals. *)
Definition lower_char (c : ascii) : ascii :=
  let n := code c in
  if (between 65 90 n || (between 192 222 n && negb (N.eqb n 215)))%bool
  then ascii_of_N (n + 32) else c.

Definition lower (s : str) : str := map lower_char s.

Definition space : ascii := " "%char.

(** [str.lstrip()], [str.rstrip()], [str.strip()]. *)
Fixpoint lstrip (s : str) : str :=
  match s with
  | [] => []
  | c :: r => if is_space c then lstrip r else s
  end.

Fixpoint rstrip (s : str) : str :=
  match s with
  | [] => []
  | c :: r =>
      match rstrip r with
      | [] => if is_space c then [] else [c]
      | r' => c :: r'
      end
  end.

Definition strip (s : str) : str := rstrip (lstrip s).

(** [needle in hay] *)
Fixpoint startswith (p s : str) : bool :=
  match p, s with
  | [], _ => true
  | _ :: _, [] => false
  | a :: p', b :: s' => (Ascii.eqb a b && startswith p' s')%bool
  end.

Fixpoint contains (needle hay : str) : bool :=
  match hay with
  | [] => match needle with [] => true | _ => false end
  | _ :: r => (startswith needle hay || contains needle r)%bool
  end.

(** [s.split(sep)] for a one-character separator class; also
    [re.split(r'[..]', s)] for a character class. *)
Fixpoint split (sep : ascii -> bool) (s : str) : list str :=
  match s with
  | [] => [[]]
  | c :: r =>
      if sep c then [] :: split sep r
      else match split sep r with
           | [] => [[c]]
           | w :: ws => (c :: w) :: ws
           end
  end.

(** [' '.join(parts)] *)
Fixpoint join_space (parts : list str) : str :=
  match parts with
  | [] => []
  | [p] => p
  | p :: rest => p ++ space :: join_space rest
  end.

Definition str_eqb (a b : str) : bool :=
  if list_eq_dec ascii_dec a b then true else false.

(** [x in l] for a list or a set of strings. *)
Definition mem (x : str) (l : list str) : bool := existsb (str_eqb x) l.

(** Truthiness of a string: non-empty. *)
Definition truthy (s : str) : bool :=
  match s with [] => false | _ => true end.

End PyStr.
Import PyStr.

(** ** The text normaliser

    [preprocess_text] is defined twice in the repository, with the same
    body, in [recommender.py] and in [ats_scorer.py]. *)

(** [re.sub(r'[^a-z0-9\s]', ' ', text)] *)
Definition sub_special (s : str) : str :=
  map (fun c => if (is_az09 c || is_space c)%bool then c else space) s.

(** [re.sub(r'\s+', ' ', text)]: every maximal run of whitespace becomes
    one space.  [in_run] tells that the previous character was
    whitespace. *)
Fixpoint sub_spaces_from (in_run : bool) (s : str) : str :=
  match s with
  | [] => []
  | c :: r =>
      if is_space c
      then (if in_run then sub_spaces_from true r
            else space :: sub_spaces_from true r)
      else c :: sub_spaces_from false r
  end.

Definition sub_spaces (s : str) : str := sub_spaces_from false s.

Module Recommender.

(** recommender.py, [preprocess_text].  The argument is a string here, so
    of the guard [not text or not isinstance(text, str)] the emptiness
    test remains. *)
Definition preprocess_text (text : str) : str :=
  if negb (truthy text) then []
  else
    let text := lower text in
    let text := sub_special text in
    let text := sub_spaces text in
    strip text.

End Recommender.

Module AtsScorer.

(** ats_scorer.py, [preprocess_text]. *)
Definition preprocess_text (text : str) : str :=
  if negb (truthy text) then []
  else
    let text := lower text in
    let text := sub_special text in
    let text := sub_spaces text in
    strip text.

End AtsScorer.

(** ** Stable sorting

    [list.sort(key=..., reverse=True)] and [sorted(...)] are stable: of two
    elements the comparison does not separate, the one that came first in
    the input comes first in the output.  [before x y] says that [x] may
    stand in front of [y] when [x] came first. *)

Section StableSort.

Variable A : Type.
Variable before : A -> A -> bool.

Fixpoint insert_by (x : A) (l : list A) : list A :=
  match l with
  | [] => [x]
  | y :: r => if before x y then x :: l else y :: insert_by x r
  end.

Fixpoint sort_by (l : list A) : list A :=
  match l with
  | [] => []
  | x :: r => insert_by x (sort_by r)
  end.

(** Two elements the order does not separate. *)
Definition tied (a b : A) : bool := (before a b && before b a)%bool.

End StableSort.

(** [l[:n]] for a Python integer [n]: a negative [n] counts from the end. *)
Definition slice_to (A : Type) (n : Z) (l : list A) : list A :=
  if (0 <=? n)%Z then firstn (Z.to_nat n) l
  else firstn (length l - Z.to_nat (- n)) l.

(** Python's [min(a, b)] on numbers: [b] only when it is strictly less. *)
Definition py_min (a b : Q) : Q := if Qle_bool a b then a else b.

(** ** Records of the data model *)

(** The [skills] field of a profile: one delimited string or a list. *)
Inductive skills_value :=
| SkillsStr (s : str)
| SkillsList (l : list str).

(** A profile dictionary; [None] is a key that is not there. *)
Record profile := {
  skills : option skills_value;
  education : option str;
  experience : option str;
  location : option str
}.

(** A job dictionary; [None] is a key that is not there.  A salary is a
    number ([int], [float] or [Decimal]), kept as the rational it denotes. *)
Record job := {
  title : option str;
  company : option str;
  description : option str;
  job_location : option str;
  category : option str;
  salary_min : option Q;
  salary_max : option Q
}.

(** [d.get(k)] followed by a truth test, for a text field. *)
Definition get_truthy (f : option str) : option str :=
  match f with
  | Some s => if truthy s then Some s else None
  | None => None
  end.

(** [d.get(k, '')] *)
Definition get_or_empty (f : option str) : str :=
  match f with Some s => s | None => [] end.

Definition is_nil (A : Type) (l : list A) : bool :=
  match l with [] => true | _ => false end.

(** ** recommender.py *)

Module Import RecommenderCore.

Definition skill_keywords : list str := map py [
  "python"; "java"; "javascript"; "html"; "css"; "sql"; "react"; "angular";
  "vue"; "node"; "express"; "django"; "flask"; "spring"; "mongodb"; "mysql";
  "postgresql"; "aws"; "azure"; "docker"; "kubernetes"; "git"; "linux";
  "agile"; "scrum"; "machine learning"; "ai"; "data science"; "tensorflow";
  "pytorch"; "pandas"; "numpy"; "excel"; "tableau"; "powerbi"; "salesforce"
]%string.

(** [combine_user_profile] *)
Definition combine_user_profile (profile_data : profile) : str :=
  let parts :=
    match skills profile_data with
    | Some (SkillsList l) => if is_nil l then [] else [join_space l]
    | Some (SkillsStr s) => if truthy s then [s] else []
    | None => []
    end
    ++ match get_truthy (education profile_data) with Some s => [s] | None => [] end
    ++ match get_truthy (experience profile_data) with Some s => [s] | None => [] end
    ++ match get_truthy (location profile_data) with Some s => [s] | None => [] end
  in join_space parts.

(** [extract_job_text] *)
Definition extract_job_text (j : job) : str :=
  let parts :=
    match get_truthy (title j) with Some s => [s] | None => [] end
    ++ match get_truthy (description j) with Some s => [s] | None => [] end
    ++ match get_truthy (category j) with Some s => [s] | None => [] end
    ++ match get_truthy (company j) with Some s => [s] | None => [] end
  in join_space parts.

(** One entry of the recommendation list. *)
Record recommendation := {
  rec_job : job;
  similarity_score : Q;
  skill_gaps : list str
}.

(** [reverse=True] on the key [similarity_score]. *)
Definition score_before (a b : recommendation) : bool :=
  Qle_bool (similarity_score b) (similarity_score a).

Definition is_comma (c : ascii) : bool := Ascii.eqb c ","%char.
Definition is_comma_or_semicolon (c : ascii) : bool :=
  (Ascii.eqb c ","%char || Ascii.eqb c ";"%char)%bool.

Section Engine.

(** scikit-learn: [TfidfVectorizer(...).fit_transform(all_texts)] followed
    by [cosine_similarity(user_vector, job_vectors)[0]] on the profile
    text and the job texts; [None] when it raises. *)
Variable tfidf_cosine : str -> list str -> option (list Q).

(** [list(set(l))]: the distinct elements of [l] in the order the hash
    table yields them. *)
Variable list_of_set : list str -> list str.

(** [calculate_similarity] *)
Definition calculate_similarity (user_profile_text : str) (job_texts : list str)
  : list Q :=
  if (negb (truthy user_profile_text) || is_nil job_texts)%bool
  then repeat 0%Q (if is_nil job_texts then 0 else length job_texts)
  else
    match tfidf_cosine user_profile_text job_texts with
    | Some similarities => similarities
    | None => repeat 0%Q (length job_texts)
    end.

(** [identify_skill_gaps].  The source also tokenises the job text into
    [job_words], which it never reads. *)
Definition identify_skill_gaps (user_skills : list str) (job_description : str)
  : list str :=
  if (negb (truthy job_description) || is_nil user_skills)%bool then []
  else
    let user_skills_set :=
      map (fun skill => strip (lower skill)) (filter truthy user_skills) in
    let job_text := Recommender.preprocess_text (lower job_description) in
    let job_skills :=
      filter (fun keyword => contains keyword job_text) skill_keywords in
    let missing_skills :=
      filter (fun skill => negb (mem skill user_skills_set)) job_skills in
    firstn 10 (list_of_set missing_skills).

(** The loop of [recommend_jobs] over [enumerate(jobs)], from index [i]. *)
Fixpoint build_results (similarities : list Q) (user_skills : list str)
    (i : nat) (jobs : list job) : list recommendation :=
  match jobs with
  | [] => []
  | j :: rest =>
      {| rec_job := j;
         similarity_score := nth i similarities 0%Q;
         skill_gaps := identify_skill_gaps user_skills
                         (get_or_empty (description j)) |}
      :: build_results similarities user_skills (S i) rest
  end.

(** [recommend_jobs] *)
Definition recommend_jobs (user_profile : profile) (jobs : list job) (top_n : Z)
  : list recommendation :=
  if is_nil jobs then []
  else
    let user_profile_text := combine_user_profile user_profile in
    if negb (truthy user_profile_text) then []
    else
      let job_texts := map extract_job_text jobs in
      let similarities := calculate_similarity user_profile_text job_texts in
      let user_skills :=
        match skills user_profile with
        | Some (SkillsList l) => l
        | Some (SkillsStr s) =>
            if truthy s then map strip (split is_comma_or_semicolon s) else []
        | None => []
        end in
      let results := build_results similarities user_skills 0 jobs in
      slice_to top_n (sort_by score_before results).

End Engine.

(** What [list(set(l))] guarantees: the elements of [l], each once. *)
Definition set_listing (list_of_set : list str -> list str) : Prop :=
  forall l, NoDup (list_of_set l) /\ forall x, In x (list_of_set l) <-> In x l.

(** One such listing: first occurrences, in the order of [l]. *)
Definition first_seen (l : list str) : list str :=
  rev (nodup (list_eq_dec ascii_dec) (rev l)).

End RecommenderCore.

(** ** ats_scorer.py *)

Module Import Ats.

Definition common_skills : list str := map py [
  "python"; "java"; "javascript"; "react"; "angular"; "vue"; "node";
  "sql"; "mysql"; "postgresql"; "mongodb"; "aws"; "azure"; "docker";
  "kubernetes"; "git"; "agile"; "scrum"; "machine learning"; "ai";
  "data science"; "html"; "css"; "typescript"; "c++"; "c#"; "php"
]%string.

Record skills_match := {
  sm_score : Q;
  sm_matched : list str;
  sm_missing : list str;
  sm_total_required : nat;
  sm_total_matched : nat;
  sm_percentage : Q
}.

(** The list the source calls [user_skills_list]. *)
Definition user_skills_list (user_skills : skills_value) : list str :=
  match user_skills with
  | SkillsStr s => map (fun s => lower (strip s)) (split is_comma s)
  | SkillsList l => map lower l
  end.

Definition matched_skills (user_skills : skills_value) (job_description : str)
  : list str :=
  filter (fun skill => contains skill (lower job_description))
         (user_skills_list user_skills).

Definition required_skills (job_description : str) : list str :=
  filter (fun skill => contains skill (lower job_description)) common_skills.

Definition nat_Q (n : nat) : Q := inject_Z (Z.of_nat n).

(** [calculate_skills_match] *)
Definition calculate_skills_match (user_skills : skills_value)
    (job_description : str) : skills_match :=
  let matched := matched_skills user_skills job_description in
  let required := required_skills job_description in
  let missing :=
    filter (fun skill =>
              negb (mem skill (map lower (user_skills_list user_skills))))
           required in
  let skills_percentage :=
    if negb (is_nil required)
    then (nat_Q (length matched) / nat_Q (length required)) * 100
    else if negb (is_nil matched) then 100 else 50 in
  {| sm_score := py_min skills_percentage 100;
     sm_matched := firstn 10 matched;
     sm_missing := firstn 10 missing;
     sm_total_required := length required;
     sm_total_matched := length matched;
     sm_percentage := py_min skills_percentage 100 |}.

(** The dictionary [education_levels], in insertion order. *)
Definition education_levels : list (str * Z) := [
  (py "phd", 100); (py "doctorate", 100); (py "master", 80); (py "msc", 80);
  (py "mba", 80); (py "bachelor", 60); (py "bsc", 60); (py "associate", 40);
  (py "diploma", 30); (py "high school", 20)
]%Z.

(** One turn of the loops that look for the highest level named in a
    text: [acc] is the running [(level, degree)]. *)
Definition level_step (text_lower : str) (acc : Z * option str)
    (entry : str * Z) : Z * option str :=
  let (degree, level) := entry in
  if (contains degree text_lower && (level >? fst acc)%Z)%bool
  then (level, Some degree) else acc.

(** The loop over [education_levels.items()], from [(0, None)]. *)
Definition highest_level (text_lower : str) : Z * option str :=
  fold_left (level_step text_lower) education_levels (0%Z, None).

(** The [details] message, with the values its f-string takes. *)
Inductive education_details :=
| NoRequirementsSpecified
| NoSpecificRequirement
| MeetsRequirement (user_degree : option str)
| PartialMatch (user_degree required_degree : option str)
| EducationInformationNeeded.

Record education_match := {
  em_score : Q;
  em_details : education_details
}.

(** [calculate_education_match] *)
Definition calculate_education_match (user_education job_description : str)
  : education_match :=
  if (negb (truthy user_education) || negb (truthy job_description))%bool
  then {| em_score := 50; em_details := NoRequirementsSpecified |}
  else
    let job_lower := lower job_description in
    let edu_lower := lower user_education in
    let (user_level, user_degree) := highest_level edu_lower in
    let (required_level, required_degree) := highest_level job_lower in
    let (score, details) :=
      if (required_level =? 0)%Z then (80, NoSpecificRequirement)
      else if (user_level >=? required_level)%Z
           then (100, MeetsRequirement user_degree)
      else if (user_level >? 0)%Z
           then ((inject_Z user_level / inject_Z required_level) * 100,
                 PartialMatch user_degree required_degree)
      else (40, EducationInformationNeeded) in
    {| em_score := py_min score 100; em_details := details |}.

End Ats.

(** ** visualizer.py *)

Module Import Visualizer.

(** The dictionary [skill_keywords] of [analyze_skill_demand], in insertion
    order. *)
Definition skill_keywords : list (str * list str) :=
  map (fun e : string * list string => (py (fst e), map py (snd e))) [
    ("Python", ["python"]);
    ("Java", ["java"]);
    ("JavaScript", ["javascript"; "js"]);
    ("React", ["react"]);
    ("SQL", ["sql"; "mysql"; "postgresql"]);
    ("AWS", ["aws"; "amazon web services"]);
    ("Docker", ["docker"]);
    ("Machine Learning", ["machine learning"; "ml"; "tensorflow"; "pytorch"]);
    ("Data Science", ["data science"; "pandas"; "numpy"]);
    ("Node.js", ["node"; "nodejs"]);
    ("Angular", ["angular"]);
    ("Vue", ["vue"]);
    ("Django", ["django"]);
    ("Flask", ["flask"]);
    ("Spring", ["spring"]);
    ("MongoDB", ["mongodb"]);
    ("Git", ["git"; "github"]);
    ("Kubernetes", ["kubernetes"; "k8s"])
  ]%string.

(** [' '.join([job.get('description', '').lower() for job in jobs])] *)
Definition job_descriptions (jobs : list job) : str :=
  join_space (map (fun j => lower (get_or_empty (description j))) jobs).

(** [sum(1 for keyword in keywords if keyword in job_descriptions)] *)
Definition keyword_count (keywords : list str) (corpus : str) : nat :=
  length (filter (fun keyword => contains keyword corpus) keywords).

(** The dictionary [skill_counts], in insertion order. *)
Definition skill_counts (jobs : list job) : list (str * nat) :=
  let corpus := job_descriptions jobs in
  flat_map
    (fun entry : str * list str =>
       let count := keyword_count (snd entry) corpus in
       if 0 <? count then [(fst entry, count)] else [])
    skill_keywords.

Definition count_before (a b : str * nat) : bool := snd b <=? snd a.

(** [analyze_skill_demand]: the ordered dictionary as the list of its
    items. *)
Definition analyze_skill_demand (jobs : list job) : list (str * nat) :=
  sort_by count_before (skill_counts jobs).

Record salary_statistics := {
  average : Q;
  stat_min : Q;
  stat_max : Q;
  median : Q
}.

Definition zero_statistics : salary_statistics :=
  {| average := 0; stat_min := 0; stat_max := 0; median := 0 |}.

(** [x > 0] on numbers. *)
Definition is_positive (x : Q) : bool := negb (Qle_bool x 0).

(** [job.get(k) and job.get(k) > 0]: the value is there, is not zero, and
    is greater than zero. *)
Definition positive_salary (v : option Q) : list Q :=
  match v with
  | Some x => if Qeq_bool x 0 then [] else if is_positive x then [x] else []
  | None => []
  end.

(** The first loop of [calculate_salary_statistics]. *)
Definition collect_salaries (jobs : list job) : list Q :=
  flat_map (fun j => positive_salary (salary_min j) ++ positive_salary (salary_max j))
           jobs.

Definition sum_Q (l : list Q) : Q := fold_left Qplus l 0.

(** [min(l)] and [max(l)] of a non-empty list: the first of the least,
    the first of the greatest. *)
Definition list_min (l : list Q) : Q :=
  match l with
  | [] => 0
  | x :: r => fold_left (fun m y => if negb (Qle_bool m y) then y else m) r x
  end.
Definition list_max (l : list Q) : Q :=
  match l with
  | [] => 0
  | x :: r => fold_left (fun m y => if negb (Qle_bool y m) then y else m) r x
  end.

(** [sorted(l)] *)
Definition sorted (l : list Q) : list Q := sort_by Qle_bool l.

(** [calculate_salary_statistics] *)
Definition calculate_salary_statistics (jobs : list job) : salary_statistics :=
  let salaries := collect_salaries jobs in
  if is_nil salaries then zero_statistics
  else
    let salaries := filter is_positive salaries in
    if is_nil salaries then zero_statistics
    else
      {| average := sum_Q salaries / nat_Q (length salaries);
         stat_min := list_min salaries;
         stat_max := list_max salaries;
         median := nth (length salaries / 2) (sorted salaries) 0 |}.

(** The pooled salaries in the words of the specification: all the
    [salary_min] and [salary_max] values that are there, the positive ones
    kept. *)
Definition field_values (v : option Q) : list Q :=
  match v with Some x => [x] | None => [] end.

Definition pooled_positive (jobs : list job) : list Q :=
  filter is_positive
         (flat_map (fun j => field_values (salary_min j)
                             ++ field_values (salary_max j)) jobs).

(** A salary field that is zero or not there. *)
Definition zero_or_absent (v : option Q) : Prop :=
  match v with Some x => x == 0 | None => True end.

End Visualizer.

(** ** recommender.py and ats_scorer.py: the functions around the vectoriser *)

Module Import AtsKeywords.

(** [key=lambda x: x[1], reverse=True] on (keyword, score) pairs. *)
Definition weight_before (a b : str * Q) : bool := Qle_bool (snd b) (snd a).

Record keyword_match := {
  km_score : Q;
  km_matched : list str;
  km_missing : list str;
  km_total_required : nat;
  km_total_matched : option nat;
  km_percentage : Q
}.

Definition experience_keywords : list str := map py [
  "year"; "years"; "experience"; "worked"; "developed"; "managed"; "led"
]%string.

Inductive experience_details :=
| UnableToAssess
| GoodMatch
| ModerateMatch
| NeedsImprovement.

Record experience_match := {
  xm_score : Q;
  xm_details : experience_details
}.

Section Vectoriser.

(** scikit-learn: [TfidfVectorizer(max_features=top_n, ...)] fitted on the
    one text; the feature names zipped with the scores of the text, in the
    order of [get_feature_names_out()]; [None] when it raises. *)
Variable tfidf_features : str -> nat -> option (list (str * Q)).

(** scikit-learn: the cosine similarity of the two texts in the TF-IDF
    space fitted on them; [None] when it raises. *)
Variable tfidf_pair_cosine : str -> str -> option Q.

(** [extract_keywords] *)
Definition extract_keywords (text : str) (top_n : nat) : list str :=
  if negb (truthy text) then []
  else
    match tfidf_features text top_n with
    | Some keyword_scores =>
        let keyword_scores := sort_by weight_before keyword_scores in
        map fst (filter (fun ks => is_positive (snd ks)) keyword_scores)
    | None => []
    end.

(** The lists [matched_keywords] and [missing_keywords] before they are
    cut. *)
Definition matched_keywords (resume_text job_text : str) : list str :=
  let job_keywords := extract_keywords job_text 30 in
  let resume_keywords_set := extract_keywords resume_text 50 in
  filter (fun kw => mem kw resume_keywords_set) job_keywords.

Definition missing_keywords (resume_text job_text : str) : list str :=
  let job_keywords := extract_keywords job_text 30 in
  let resume_keywords_set := extract_keywords resume_text 50 in
  filter (fun kw => negb (mem kw resume_keywords_set)) job_keywords.

(** [calculate_keyword_match] *)
Definition calculate_keyword_match (resume_text job_text : str) : keyword_match :=
  let job_keywords := extract_keywords job_text 30 in
  if is_nil job_keywords
  then {| km_score := 0; km_matched := []; km_missing := [];
          km_total_required := 0; km_total_matched := None;
          km_percentage := 0 |}
  else
    let matched := matched_keywords resume_text job_text in
    let missing := missing_keywords resume_text job_text in
    let match_percentage :=
      (nat_Q (length matched) / nat_Q (length job_keywords)) * 100 in
    {| km_score := match_percentage;
       km_matched := firstn 15 matched;
       km_missing := firstn 10 missing;
       km_total_required := length job_keywords;
       km_total_matched := Some (length matched);
       km_percentage := match_percentage |}.

(** [any(kw in text for kw in experience_keywords)] *)
Definition has_experience_keyword (text_lower : str) : bool :=
  existsb (fun kw => contains kw text_lower) experience_keywords.

(** [calculate_experience_match] *)
Definition calculate_experience_match (user_experience job_description : str)
  : experience_match :=
  if (negb (truthy user_experience) || negb (truthy job_description))%bool
  then {| xm_score := 50; xm_details := UnableToAssess |}
  else
    let job_lower := lower job_description in
    let exp_lower := lower user_experience in
    let job_has_exp := has_experience_keyword job_lower in
    let user_has_exp := has_experience_keyword exp_lower in
    let score :=
      if (job_has_exp && user_has_exp)%bool
      then match tfidf_pair_cosine exp_lower job_lower with
           | Some similarity => similarity * 100
           | None => 60
           end
      else 50 in
    {| xm_score := score;
       xm_details := if Qle_bool 70 score then GoodMatch
                     else if Qle_bool 50 score then ModerateMatch
                     else NeedsImprovement |}.

End Vectoriser.

End AtsKeywords.

(** ** visualizer.py: the distributions *)

Module Import Distributions.

(** [d[key] = d.get(key, 0) + 1] on a dictionary kept in insertion order:
    a key that is there keeps its place. *)
Fixpoint dict_incr (key : str) (d : list (str * nat)) : list (str * nat) :=
  match d with
  | [] => [(key, 1%nat)]
  | (k, n) :: r =>
      if str_eqb k key then (k, S n) :: r else (k, n) :: dict_incr key r
  end.

(** [d.get(key, 0)] *)
Fixpoint dict_get (key : str) (d : list (str * nat)) : nat :=
  match d with
  | [] => 0%nat
  | (k, n) :: r => if str_eqb k key then n else dict_get key r
  end.

(** [job.get(k, 'Unknown')] *)
Definition get_or_unknown (f : option str) : str :=
  match f with Some s => s | None => py "Unknown" end.

(** The loop of the two distribution functions, on the field [field]. *)
Definition count_field (field : job -> option str) (jobs : list job)
  : list (str * nat) :=
  fold_left
    (fun d j =>
       let value := get_or_unknown (field j) in
       if truthy value then dict_incr value d else d)
    jobs [].

(** [analyze_job_distribution_by_location] *)
Definition analyze_job_distribution_by_location (jobs : list job)
  : list (str * nat) :=
  sort_by count_before (count_field job_location jobs).

(** [analyze_job_distribution_by_category] *)
Definition analyze_job_distribution_by_category (jobs : list job)
  : list (str * nat) :=
  sort_by count_before (count_field category jobs).

End Distributions.

(** ** resume_parser.py *)

Module ResumeParser.

Definition TECH_SKILLS : list str := map py [
  "python"; "java"; "javascript"; "html"; "css"; "sql"; "react"; "angular"; "vue";
  "node"; "express"; "django"; "flask"; "spring"; "mongodb"; "mysql"; "postgresql";
  "aws"; "azure"; "docker"; "kubernetes"; "git"; "linux"; "agile"; "scrum";
  "machine learning"; "ai"; "data science"; "tensorflow"; "pytorch"; "pandas";
  "numpy"; "excel"; "tableau"; "powerbi"; "salesforce"; "oracle"; "sap"
]%string.

(** resume_parser.py, [preprocess_text]: the third copy, without the
    guard. *)
Definition preprocess_text (text : str) : str :=
  let text := lower text in
  let text := sub_special text in
  let text := sub_spaces text in
  strip text.

(** [str.title()] on ASCII text, which is what this module applies it to
    (vocabulary words and pieces of normalised text): a letter that follows
    a letter is lowered, any other letter is raised. *)
Definition is_cased (c : ascii) : bool :=
  let n := code c in (between 65 90 n || between 97 122 n)%bool.

Definition upper_char (c : ascii) : ascii :=
  let n := code c in
  if between 97 122 n then ascii_of_N (n - 32) else c.

Fixpoint title_from (previous_is_cased : bool) (s : str) : str :=
  match s with
  | [] => []
  | c :: r =>
      (if previous_is_cased then lower_char c else upper_char c)
      :: title_from (is_cased c) r
  end.

Definition title (s : str) : str := title_from false s.

Definition entity_labels : list str := map py ["ORG"; "PRODUCT"; "TECHNOLOGY"]%string.

(** [l[a:b]] for indices within bounds. *)
Definition slice (A : Type) (a b : nat) (l : list A) : list A :=
  firstn (b - a) (skipn a l).

(** ['; '.join(parts)] *)
Fixpoint join_semicolon (parts : list str) : str :=
  match parts with
  | [] => []
  | [p] => p
  | p :: rest => p ++ py "; " ++ join_semicolon rest
  end.

Definition is_newline (c : ascii) : bool := Ascii.eqb c "010"%char.

(** The loop of [extract_education] and of [extract_experience] over
    [enumerate(lines)], from index [i]: a line that names a keyword gives
    the context [lines[max(0, i-1) : min(len(lines), i+after)]], joined
    and stripped.  [rest] is what is left of [lines] from [i] on. *)
Fixpoint mentions (keywords : list str) (after : nat) (lines : list str)
    (i : nat) (rest : list str) : list str :=
  match rest with
  | [] => []
  | line :: rest' =>
      let line_lower := lower line in
      (if existsb (fun keyword => contains keyword line_lower) keywords
       then [strip (join_space (slice (Nat.max 0 (i - 1))
                                      (Nat.min (length lines) (i + after))
                                      lines))]
       else [])
      ++ mentions keywords after lines (S i) rest'
  end.

Definition education_keywords : list str := map py [
  "bachelor"; "master"; "phd"; "degree"; "university"; "college"; "education"
]%string.

Definition experience_keywords : list str := map py [
  "experience"; "worked"; "employed"; "years"; "project"; "developed"
]%string.

(** [extract_education] *)
Definition extract_education (text : str) : str :=
  let lines := split is_newline text in
  let education_info := mentions education_keywords 2 lines 0 lines in
  join_semicolon (firstn 3 education_info).

(** [extract_experience] *)
Definition extract_experience (text : str) : str :=
  let lines := split is_newline text in
  let experience_info := mentions experience_keywords 3 lines 0 lines in
  join_semicolon (firstn 5 experience_info).

(** [s.endswith(suffix)] *)
Definition endswith (suffix s : str) : bool := startswith (rev suffix) (rev s).

Section Readers.

(** [list(set(l))], as in the recommender. *)
Variable list_of_set : list str -> list str.

(** spaCy: the entities of [nlp(processed_text)], each with its text and
    its label; [None] when no model is loaded or the call raises. *)
Variable spacy_entities : str -> option (list (str * str)).

(** PyPDF2 and python-docx: the text of the file at a path, [""] when
    reading fails. *)
Variable extract_text_from_pdf : str -> str.
Variable extract_text_from_docx : str -> str.

(** The list [found_skills] before duplicates are removed.  The source also
    tokenises and lemmatises the text into lists it never reads. *)
Definition found_skills (text : str) : list str :=
  let processed_text := preprocess_text text in
  let text_lower := lower processed_text in
  map title (filter (fun skill => contains (lower skill) text_lower) TECH_SKILLS)
  ++ match spacy_entities processed_text with
     | Some ents =>
         map (fun ent => title (fst ent))
             (filter (fun ent => mem (snd ent) entity_labels) ents)
     | None => []
     end.

(** [extract_skills] *)
Definition extract_skills (text : str) : list str :=
  if negb (truthy text) then [] else list_of_set (found_skills text).

(** [extract_text_from_resume] *)
Definition extract_text_from_resume (file_path : str) : str :=
  if endswith (py ".pdf") file_path then extract_text_from_pdf file_path
  else if (endswith (py ".docx") file_path || endswith (py ".doc") file_path)%bool
       then extract_text_from_docx file_path
  else [].

End Readers.

End ResumeParser.

(** ** app.py *)

Module App.

Definition ALLOWED_EXTENSIONS : list str := map py ["pdf"; "docx"; "doc"]%string.

Definition is_dot (c : ascii) : bool := Ascii.eqb c "."%char.

(** [s.rsplit('.', 1)[1]]: what follows the last dot; [None] when there is
    no dot (the list has one element only). *)
Fixpoint after_last_dot (s : str) : option str :=
  match s with
  | [] => None
  | c :: r =>
      match after_last_dot r with
      | Some ext => Some ext
      | None => if is_dot c then Some r else None
      end
  end.

(** [allowed_file] *)
Definition allowed_file (filename : str) : bool :=
  (contains (py ".") filename
   && match after_last_dot filename with
      | Some ext => mem (lower ext) ALLOWED_EXTENSIONS
      | None => false
      end)%bool.

(** The four counts of the summary in [ats_score], over the overall scores
    of the results. *)
Definition excellent_count (scores : list Q) : nat :=
  length (filter (fun s => Qle_bool 80 s) scores).
Definition good_count (scores : list Q) : nat :=
  length (filter (fun s => (Qle_bool 60 s && negb (Qle_bool 80 s))%bool) scores).
Definition fair_count (scores : list Q) : nat :=
  length (filter (fun s => (Qle_bool 40 s && negb (Qle_bool 60 s))%bool) scores).
Definition poor_count (scores : list Q) : nat :=
  length (filter (fun s => negb (Qle_bool 40 s)) scores).

End App.

(** ** job_fetcher.py *)

Module JobFetcher.

Section Search.

(** A job dictionary as the cache and the API give it, with its
    ['job_id']. *)
Variable Row : Type.
Variable job_id : Row -> str.

(** The rows MySQL returns for [get_cached_jobs(limit, job_title_filter,
    location_filter)]; [[]] when there is no connection or the query
    fails. *)
Variable get_cached_jobs : Z -> option str -> option str -> list Row.

(** The jobs [fetch_jobs_from_api(job_title, location, results_per_page)]
    builds from the answer of the API; [[]] when the request fails. *)
Variable fetch_jobs_from_api : str -> str -> Z -> list Row.

(** [search_jobs].  Writing the fetched jobs to the cache
    ([cache_jobs_in_db]) does not change what is returned. *)
Definition search_jobs (job_title location : str) (use_cache : bool)
    (max_results : Z) : list Row :=
  let jobs :=
    if use_cache
    then get_cached_jobs max_results
           (if truthy job_title then Some job_title else None)
           (if truthy location then Some location else None)
    else [] in
  let jobs :=
    if ((Z.of_nat (length jobs) <? max_results)%Z || negb use_cache)%bool
    then
      let api_jobs := fetch_jobs_from_api job_title location max_results in
      let existing_ids := map job_id jobs in
      let new_jobs :=
        filter (fun j => negb (mem (job_id j) existing_ids)) api_jobs in
      jobs ++ new_jobs
    else jobs in
  slice_to max_results jobs.

End Search.

End JobFetcher.

(** ** Names for parts of the functions above *)

(** The list [user_skills] that [recommend_jobs] hands to the gap
    analysis. *)
Definition profile_skills (user_profile : profile) : list str :=
  match skills user_profile with
  | Some (SkillsList l) => l
  | Some (SkillsStr s) =>
      if truthy s then map strip (split is_comma_or_semicolon s) else []
  | None => []
  end.

(** The list [results] of [recommend_jobs] before it is sorted. *)
Definition unsorted_results (tfidf_cosine : str -> list str -> option (list Q))
    (list_of_set : list str -> list str) (user_profile : profile)
    (jobs : list job) : list recommendation :=
  build_results list_of_set
    (calculate_similarity tfidf_cosine (combine_user_profile user_profile)
                          (map extract_job_text jobs))
    (profile_skills user_profile) 0 jobs.

(** The set [user_skills_set] of [identify_skill_gaps]. *)
Definition user_skills_set (user_skills : list str) : list str :=
  map (fun skill => strip (lower skill)) (filter truthy user_skills).

(** The vocabulary skills of a job description that the user does not
    have: [missing_skills] in [identify_skill_gaps]. *)
Definition missing_skills (user_skills : list str) (job_description : str)
  : list str :=
  filter (fun skill => negb (mem skill (user_skills_set user_skills)))
    (filter (fun keyword =>
               contains keyword
                 (Recommender.preprocess_text (lower job_description)))
            RecommenderCore.skill_keywords).

(** The part of [calculate_education_match] headed [# Calculate score]:
    the score and the details from the two (level, degree) pairs. *)
Definition education_outcome (user required : Z * option str)
  : Q * education_details :=
  let (user_level, user_degree) := user in
  let (required_level, required_degree) := required in
  if (required_level =? 0)%Z then (80, NoSpecificRequirement)
  else if (user_level >=? required_level)%Z
       then (100, MeetsRequirement user_degree)
  else if (user_level >? 0)%Z
       then ((inject_Z user_level / inject_Z required_level) * 100,
             PartialMatch user_degree required_degree)
  else (40, EducationInformationNeeded).

(** What the loop of [highest_level] holds at any time: nothing yet, or a
    keyword of the table that occurs in the text, with its level. *)
Definition level_found (text : str) (acc : Z * option str) : Prop :=
  acc = (0%Z, None)
  \/ exists d, snd acc = Some d /\ In (d, fst acc) education_levels
               /\ contains d text = true.

(** The levels of the table, and 0 for no degree. *)
Definition level_values : list Z := [0; 100; 80; 60; 40; 30; 20]%Z.

(** The values the loop of [count_field] counts: those that are not
    empty. *)
Definition counted_values (field : job -> option str) (jobs : list job)
  : list str :=
  filter truthy (map (fun j => get_or_unknown (field j)) jobs).

(** The state of the loop of [count_field], started from [d]. *)
Definition count_from (field : job -> option str) (d : list (str * nat))
    (jobs : list job) : list (str * nat) :=
  fold_left
    (fun d j =>
       let value := get_or_unknown (field j) in
       if truthy value then dict_incr value d else d)
    jobs d.

(** The shape of the two distribution functions. *)
Definition distribution (field : job -> option str) (jobs : list job)
  : list (str * nat) :=
  sort_by count_before (count_field field jobs).

(** A keyword that begins with a character that is not a blank. *)
Definition solid (keyword : str) : bool :=
  match keyword with [] => false | c :: _ => negb (is_space c) end.

(** The test [any(keyword in line_lower for keyword in keywords)] of
    [extract_education] and [extract_experience]. *)
Definition names_keyword (keywords : list str) (line : str) : bool :=
  existsb (fun keyword => contains keyword (lower line)) keywords.

(** ** ats_scorer.py: the overall score *)

Module Import AtsScore.







(** [user_profile.get('skills', '')] *)
Definition skills_or_empty (user_profile : profile) : skills_value :=
  match skills user_profile with
  | Some v => v
  | None => SkillsStr []
  end.

Section Scorer.

Variable tfidf_features : str -> nat -> option (list (str * Q)).
Variable tfidf_pair_cosine : str -> str -> option Q.

(** Python's [str()] of a list of strings, which is what an f-string
    prints for a skills field that is a list. *)
Variable str_of_list : list str -> str.

(** The f-string that builds [resume_text]. *)
Definition resume_text (user_profile : profile) : str :=
  match skills_or_empty user_profile with
  | SkillsStr s => s
  | SkillsList l => str_of_list l
  end
  ++ space :: get_or_empty (education user_profile)
  ++ space :: get_or_empty (experience user_profile).

(** The f-string that builds [job_text]. *)
Definition job_text (j : job) : str :=
  get_or_empty (title j)
  ++ space :: get_or_empty (description j)
  ++ space :: get_or_empty (category j).


End Scorer.

End AtsScore.

(** ** The normal form of normalised text *)

(** A character the normaliser lets through unchanged. *)
Definition plain (c : ascii) : bool := (is_az09 c || Ascii.eqb c space)%bool.

(** No two whitespace characters in a row. *)
Fixpoint no_run (s : str) : bool :=
  match s with
  | [] => true
  | c :: r =>
      (match r with
       | [] => true
       | d :: _ => negb (is_space c && is_space d)
       end && no_run r)%bool
  end.

Definition head_ok (s : str) : bool :=
  match s with [] => true | c :: _ => negb (is_space c) end.

Fixpoint last_ok (s : str) : bool :=
  match s with
  | [] => true
  | [c] => negb (is_space c)
  | _ :: r => last_ok r
  end.

Definition normal (s : str) : bool :=
  (forallb plain s && no_run s && head_ok s && last_ok s)%bool.

(** ** Sample data *)

Module Samples.

Definition described (t d : string) (lo hi : option Q) : job :=
  {| title := Some (py t); company := None; description := Some (py d);
     job_location := None; category := None;
     salary_min := lo; salary_max := hi |}.

Definition backend : job :=
  described "Backend Engineer"
            "Need python and sql experience, bachelor degree preferred"
            (Some 30000) (Some 50000).

Definition frontend : job :=
  described "Frontend Developer" "React, CSS and JavaScript" None (Some 0).

Definition dba : job :=
  described "Database Administrator" "mysql" (Some 40000) None.

Definition candidate : profile :=
  {| skills := Some (SkillsStr (py "python, sql"));
     education := Some (py "Bachelor");
     experience := Some (py "2 years backend");
     location := None |}.

(** A stand-in for the vectoriser: it scores a job text by its length. *)
Definition by_length (profile_text : str) (job_texts : list str)
  : option (list Q) :=
  Some (map (fun t => Z.of_nat (length t) # 1000) job_texts).

End Samples.

(** ** More sample data *)

Module MoreSamples.

(** A vectoriser that raises on every input. *)
Definition failing_vectoriser (profile_text : str) (job_texts : list str)
  : option (list Q) := None.

(** No entity recogniser at hand. *)
Definition no_entities (processed_text : str) : option (list (str * str)) :=
  None.


(** Rows of the job search: a job id and a payload. *)
Definition row : Type := str * nat.
Definition row_id (r : row) : str := fst r.
Definition cache_answer (limit : Z) (job_title_filter location_filter : option str)
  : list row := [(py "a", 1%nat); (py "b", 2%nat)].
Definition api_answer (job_title location : str) (results_per_page : Z)
  : list row := [(py "b", 3%nat); (py "c", 4%nat)].

Definition three_jobs : list job :=
  [Samples.frontend; Samples.backend; Samples.dba].

Definition resume : str :=
  py "Python and SQL developer, 3 years of experience".

End MoreSamples.

(** ** Sample data for the overall score *)

Module ScoreSamples.




End ScoreSamples.

(** * Properties *)

(** A fact about every entry of a list that is written out: one case per
    entry, each settled by evaluation. *)
Ltac each_entry H :=
  simpl in H;
  repeat (destruct H as [H|H]; [inversion H; subst; reflexivity|]);
  destruct H.

(** ** The normaliser's output is in normal form *)

Section Normaliser.

Lemma plain_cases c :
  plain c = true -> (is_az09 c = true /\ is_space c = false) \/ c = space.
Proof.
  destruct c as [[] [] [] [] [] [] [] []]; vm_compute; intros H;
    try discriminate H; auto.
Qed.

Lemma plain_lower c : plain c = true -> lower_char c = c.
Proof.
  destruct c as [[] [] [] [] [] [] [] []]; vm_compute; intros H;
    try discriminate H; reflexivity.
Qed.

Lemma plain_sub c :
  plain c = true -> (if (is_az09 c || is_space c)%bool then c else space) = c.
Proof.
  intros H; destruct (plain_cases c H) as [[-> _]| ->]; reflexivity.
Qed.

Lemma is_space_space : is_space space = true.
Proof. reflexivity. Qed.

Lemma sub_special_lower_plain_or_space s :
  Forall (fun c => is_az09 c = true \/ is_space c = true) (sub_special s).
Proof.
  unfold sub_special; induction s as [|c r IH]; simpl; constructor; auto.
  destruct (is_az09 c) eqn:A; simpl; auto.
  destruct (is_space c) eqn:B; simpl; auto.
Qed.

Lemma sub_spaces_plain b s :
  Forall (fun c => is_az09 c = true \/ is_space c = true) s ->
  forallb plain (sub_spaces_from b s) = true.
Proof.
  intros H; revert b; induction H as [|c r Hc _ IH]; intros b; simpl; auto.
  destruct (is_space c) eqn:S.
  - destruct b; simpl; auto.
  - simpl. rewrite IH, andb_true_r. unfold plain.
    destruct Hc as [->|E]; [reflexivity | congruence].
Qed.

Lemma sub_spaces_head b s :
  match sub_spaces_from b s with
  | [] => True
  | d :: _ => b = true -> is_space d = false
  end.
Proof.
  revert b; induction s as [|c r IH]; intros b; simpl; auto.
  destruct (is_space c) eqn:S.
  - destruct b.
    + apply IH.
    + discriminate.
  - auto.
Qed.

Lemma sub_spaces_no_run b s : no_run (sub_spaces_from b s) = true.
Proof.
  revert b; induction s as [|c r IH]; intros b; simpl; auto.
  destruct (is_space c) eqn:S.
  - destruct b; [apply IH|].
    simpl. rewrite IH, andb_true_r.
    pose proof (sub_spaces_head true r) as H.
    destruct (sub_spaces_from true r) as [|d t]; auto.
    change (is_space space) with true. rewrite (H eq_refl). reflexivity.
  - simpl. rewrite IH, andb_true_r, S.
    destruct (sub_spaces_from false r); reflexivity.
Qed.

End Normaliser.

Section NormalForm.

Lemma lstrip_plain s : forallb plain s = true -> forallb plain (lstrip s) = true.
Proof.
  induction s as [|c r IH]; simpl; auto.
  intros H; apply andb_true_iff in H as [Hc Hr].
  destruct (is_space c); simpl; auto. now rewrite Hc, Hr.
Qed.

Lemma lstrip_no_run s : no_run s = true -> no_run (lstrip s) = true.
Proof.
  induction s as [|c r IH]; auto.
  intros H. simpl lstrip. destruct (is_space c); auto.
  apply IH. simpl in H. apply andb_true_iff in H as [_ H]. exact H.
Qed.

Lemma lstrip_head s : head_ok (lstrip s) = true.
Proof.
  induction s as [|c r IH]; simpl; auto.
  destruct (is_space c) eqn:S; auto. simpl. now rewrite S.
Qed.

Lemma rstrip_plain s : forallb plain s = true -> forallb plain (rstrip s) = true.
Proof.
  induction s as [|c r IH]; simpl; auto.
  intros H; apply andb_true_iff in H as [Hc Hr]. specialize (IH Hr).
  destruct (rstrip r) as [|d t].
  - destruct (is_space c); simpl; auto. now rewrite Hc.
  - change (forallb plain (c :: d :: t)) with (plain c && forallb plain (d :: t))%bool.
    now rewrite Hc, IH.
Qed.

(** The first character of [rstrip s], when there is one, is the first
    character of [s]. *)
Lemma rstrip_first c r :
  rstrip (c :: r) = [] \/ exists t, rstrip (c :: r) = c :: t.
Proof.
  simpl. destruct (rstrip r) as [|d t].
  - destruct (is_space c); [left | right; exists []]; reflexivity.
  - right. now exists (d :: t).
Qed.

Lemma rstrip_no_run s : no_run s = true -> no_run (rstrip s) = true.
Proof.
  induction s as [|c r IH]; auto.
  intros H. simpl in H. apply andb_true_iff in H as [Hc Hr]. specialize (IH Hr).
  simpl rstrip. destruct (rstrip r) as [|d t] eqn:E.
  - destruct (is_space c); reflexivity.
  - change (no_run (c :: d :: t))
      with (negb (is_space c && is_space d) && no_run (d :: t))%bool.
    rewrite IH, andb_true_r.
    destruct r as [|d' r']; [discriminate E|].
    destruct (rstrip_first d' r') as [E'|[t' E']]; rewrite E' in E;
      [discriminate E|].
    injection E as <- _. exact Hc.
Qed.

Lemma rstrip_head s : head_ok s = true -> head_ok (rstrip s) = true.
Proof.
  destruct s as [|c r]; auto. intros H.
  destruct (rstrip_first c r) as [E|[t E]]; rewrite E; auto.
Qed.

Lemma rstrip_last s : last_ok (rstrip s) = true.
Proof.
  induction s as [|c r IH]; auto.
  simpl rstrip. destruct (rstrip r) as [|d t].
  - destruct (is_space c) eqn:S; auto. simpl. now rewrite S.
  - exact IH.
Qed.

Lemma strip_normal s :
  forallb plain s = true -> no_run s = true -> normal (strip s) = true.
Proof.
  intros P R. unfold normal, strip.
  rewrite rstrip_plain by now apply lstrip_plain.
  rewrite rstrip_no_run by now apply lstrip_no_run.
  rewrite rstrip_head by apply lstrip_head.
  now rewrite rstrip_last.
Qed.

Lemma lower_plain s : forallb plain s = true -> lower s = s.
Proof.
  unfold lower. induction s as [|c r IH]; simpl; auto.
  intros H; apply andb_true_iff in H as [Hc Hr].
  now rewrite (plain_lower c Hc), IH.
Qed.

Lemma sub_special_plain s : forallb plain s = true -> sub_special s = s.
Proof.
  unfold sub_special. induction s as [|c r IH]; simpl; auto.
  intros H; apply andb_true_iff in H as [Hc Hr].
  now rewrite (plain_sub c Hc), IH.
Qed.

Lemma sub_spaces_fixed b s :
  forallb plain s = true -> no_run s = true ->
  (b = true -> head_ok s = true) ->
  sub_spaces_from b s = s.
Proof.
  revert b; induction s as [|c r IH]; intros b P R Hb; auto.
  simpl in P. apply andb_true_iff in P as [Pc Pr].
  simpl in R. apply andb_true_iff in R as [Rc Rr].
  simpl. destruct (is_space c) eqn:S.
  - destruct b.
    + specialize (Hb eq_refl). simpl in Hb. rewrite S in Hb. discriminate Hb.
    + destruct (plain_cases c Pc) as [[_ F]| ->]; [congruence|].
      f_equal. apply IH; auto.
  - f_equal. apply IH; auto. discriminate.
Qed.

Lemma lstrip_fixed s : head_ok s = true -> lstrip s = s.
Proof.
  destruct s as [|c r]; auto. simpl. now destruct (is_space c).
Qed.

Lemma rstrip_fixed s : last_ok s = true -> rstrip s = s.
Proof.
  induction s as [|c r IH]; auto.
  destruct r as [|d t].
  - simpl. now destruct (is_space c).
  - intros H. change (last_ok (c :: d :: t)) with (last_ok (d :: t)) in H.
    simpl rstrip. simpl rstrip in IH. rewrite (IH H). reflexivity.
Qed.

Lemma pipeline_normal s :
  normal (strip (sub_spaces (sub_special (lower s)))) = true.
Proof.
  apply strip_normal.
  - apply sub_spaces_plain, sub_special_lower_plain_or_space.
  - apply sub_spaces_no_run.
Qed.

Lemma pipeline_fixed s :
  normal s = true -> strip (sub_spaces (sub_special (lower s))) = s.
Proof.
  unfold normal. intros H.
  apply andb_true_iff in H as [H L].
  apply andb_true_iff in H as [H Hd].
  apply andb_true_iff in H as [P R].
  rewrite (lower_plain s P), (sub_special_plain s P).
  unfold sub_spaces. rewrite sub_spaces_fixed; auto.
  unfold strip. now rewrite lstrip_fixed, rstrip_fixed.
Qed.

Lemma recommender_preprocess_normal x :
  normal (Recommender.preprocess_text x) = true.
Proof.
  unfold Recommender.preprocess_text.
  destruct (negb (truthy x)); [reflexivity | apply pipeline_normal].
Qed.

Lemma recommender_preprocess_fixed s :
  normal s = true -> Recommender.preprocess_text s = s.
Proof.
  intros H. unfold Recommender.preprocess_text.
  destruct s as [|c r]; [reflexivity|]. simpl negb. cbv iota.
  now apply pipeline_fixed.
Qed.

Lemma preprocess_text_same x :
  AtsScorer.preprocess_text x = Recommender.preprocess_text x.
Proof. reflexivity. Qed.

End NormalForm.

(** C7.  The text normaliser is idempotent: normalising a text that is
    already normalised leaves it unchanged.  This holds for both copies of
    [preprocess_text], the one of the recommender and the one of the ATS
    scorer. *)
Theorem C7_preprocess_text_idempotent (x : str) :
  Recommender.preprocess_text (Recommender.preprocess_text x)
    = Recommender.preprocess_text x
  /\ AtsScorer.preprocess_text (AtsScorer.preprocess_text x)
    = AtsScorer.preprocess_text x.
Proof.
  split.
  - apply recommender_preprocess_fixed, recommender_preprocess_normal.
  - rewrite (preprocess_text_same (AtsScorer.preprocess_text x)).
    rewrite (preprocess_text_same x).
    apply recommender_preprocess_fixed, recommender_preprocess_normal.
Qed.

(** ** Stable sorting: sortedness, permutation, stability *)

Section StableSortFacts.

Variable A : Type.
Variable before : A -> A -> bool.
Hypothesis before_total : forall a b, before a b = true \/ before b a = true.
Hypothesis before_trans :
  forall a b c, before a b = true -> before b c = true -> before a c = true.

Lemma insert_by_perm x l : Permutation (insert_by before x l) (x :: l).
Proof.
  induction l as [|y r IH]; simpl; auto.
  destruct (before x y); auto.
  rewrite IH. apply perm_swap.
Qed.

Lemma sort_by_perm l : Permutation (sort_by before l) l.
Proof.
  induction l as [|x r IH]; simpl; auto.
  rewrite insert_by_perm. now constructor.
Qed.

Lemma sort_by_length l : length (sort_by before l) = length l.
Proof. apply Permutation_length, sort_by_perm. Qed.

Lemma insert_by_sorted x l :
  StronglySorted (fun a b => before a b = true) l ->
  StronglySorted (fun a b => before a b = true) (insert_by before x l).
Proof.
  induction 1 as [|y r Hr IH Hy]; simpl.
  - repeat constructor.
  - destruct (before x y) eqn:E.
    + constructor; [now constructor|].
      constructor; auto.
      eapply Forall_impl; [|exact Hy]. intros z Hz. eauto.
    + constructor; auto.
      eapply Permutation_Forall; [symmetry; apply insert_by_perm|].
      constructor; auto.
      destruct (before_total x y); congruence.
Qed.

Lemma sort_by_sorted l :
  StronglySorted (fun a b => before a b = true) (sort_by before l).
Proof.
  induction l as [|x r IH]; simpl; [constructor | now apply insert_by_sorted].
Qed.

Lemma insert_by_filter_out (p : A -> bool) x l :
  p x = false -> filter p (insert_by before x l) = filter p l.
Proof.
  intros Hx. induction l as [|y r IH]; simpl.
  - now rewrite Hx.
  - destruct (before x y); simpl; [now rewrite Hx|].
    now rewrite IH.
Qed.

Lemma insert_by_filter_tied z x l :
  tied before z x = true ->
  filter (tied before z) (insert_by before x l) = x :: filter (tied before z) l.
Proof.
  intros Hx. induction l as [|y r IH]; simpl.
  - now rewrite Hx.
  - destruct (before x y) eqn:E; simpl.
    + now rewrite Hx.
    + rewrite IH. destruct (tied before z y) eqn:T; auto.
      exfalso. unfold tied in *.
      apply andb_true_iff in Hx as [_ Hxz], T as [Hzy _].
      rewrite (before_trans Hxz Hzy) in E. discriminate E.
Qed.

(** Stability: the elements tied with any [z] keep their input order. *)
Lemma sort_by_stable z l :
  filter (tied before z) (sort_by before l) = filter (tied before z) l.
Proof.
  induction l as [|x r IH]; simpl; auto.
  destruct (tied before z x) eqn:T.
  - rewrite insert_by_filter_tied by exact T. now rewrite IH.
  - rewrite insert_by_filter_out by exact T. exact IH.
Qed.

End StableSortFacts.

(** ** Slices *)

Lemma slice_to_firstn (A : Type) (n : Z) (l : list A) :
  (0 <= n)%Z -> slice_to n l = firstn (Z.to_nat n) l.
Proof.
  intros H. unfold slice_to.
  destruct (Z.leb_spec 0 n); [reflexivity | lia].
Qed.

Lemma firstn_subset (A : Type) n (l : list A) x :
  In x (firstn n l) -> In x l.
Proof.
  intros H. rewrite <- (firstn_skipn n l). apply in_or_app. now left.
Qed.

Lemma StronglySorted_firstn (A : Type) (R : A -> A -> Prop) n (l : list A) :
  StronglySorted R l -> StronglySorted R (firstn n l).
Proof.
  intros H; revert n; induction H as [|x r Hr IH Hx]; intros [|n]; simpl;
    try constructor; auto.
  rewrite Forall_forall in *. intros y Hy. apply Hx.
  eapply firstn_subset; eauto.
Qed.

Lemma StronglySorted_weaken (A : Type) (R S : A -> A -> Prop) (l : list A) :
  (forall a b, R a b -> S a b) -> StronglySorted R l -> StronglySorted S l.
Proof.
  intros H; induction 1 as [|x r Hr IH Hx]; constructor; auto.
  eapply Forall_impl; [|exact Hx]. auto.
Qed.

(** ** Strings *)

Lemma str_eqb_eq a b : str_eqb a b = true <-> a = b.
Proof.
  unfold str_eqb. destruct (list_eq_dec ascii_dec a b); split; intros H;
    auto; congruence.
Qed.

Lemma mem_In x l : mem x l = true <-> In x l.
Proof.
  unfold mem. rewrite existsb_exists. split.
  - intros (y & Hy & E). apply str_eqb_eq in E. now subst.
  - intros H. exists x. split; auto. now apply str_eqb_eq.
Qed.

Lemma lower_char_idem c : lower_char (lower_char c) = lower_char c.
Proof. destruct c as [[] [] [] [] [] [] [] []]; reflexivity. Qed.

Lemma lower_idem s : lower (lower s) = lower s.
Proof.
  unfold lower. rewrite map_map. apply map_ext, lower_char_idem.
Qed.

Lemma preprocess_text_lower s :
  Recommender.preprocess_text (lower s) = Recommender.preprocess_text s.
Proof.
  unfold Recommender.preprocess_text.
  destruct s as [|c r]; [reflexivity|].
  change (lower (c :: r)) with (lower_char c :: lower r) at 1.
  simpl negb. cbv iota.
  change (lower_char c :: lower r) with (lower (c :: r)).
  now rewrite lower_idem.
Qed.

Lemma startswith_nil s : startswith [] s = true.
Proof. now destruct s. Qed.

Lemma contains_nil s : contains [] s = true.
Proof. now destruct s. Qed.

(** ** The recommender *)

Section RecommenderFacts.

Variable tfidf_cosine : str -> list str -> option (list Q).
Variable list_of_set : list str -> list str.

Lemma score_before_total a b :
  score_before a b = true \/ score_before b a = true.
Proof.
  unfold score_before. rewrite !Qle_bool_iff.
  destruct (Qlt_le_dec (similarity_score a) (similarity_score b)) as [H|H];
    [right; now apply Qlt_le_weak | now left].
Qed.

Lemma score_before_trans a b c :
  score_before a b = true -> score_before b c = true ->
  score_before a c = true.
Proof.
  unfold score_before. rewrite !Qle_bool_iff. intros H1 H2.
  eapply Qle_trans; eauto.
Qed.

Lemma build_results_jobs sims us i jobs :
  map rec_job (build_results list_of_set sims us i jobs) = jobs.
Proof.
  revert i; induction jobs as [|j r IH]; intros i; simpl; auto.
  now rewrite IH.
Qed.

Lemma build_results_length sims us i jobs :
  length (build_results list_of_set sims us i jobs) = length jobs.
Proof.
  rewrite <- (build_results_jobs sims us i jobs) at 2.
  now rewrite length_map.
Qed.

(** C6.  With an empty job list the similarity engine returns the empty
    sequence, whatever the profile text; with an empty profile text it
    returns one zero per job text. *)
Theorem C6_calculate_similarity_edge_cases :
  (forall user_profile_text : str,
     calculate_similarity tfidf_cosine user_profile_text [] = [])
  /\ (forall job_texts : list str,
        calculate_similarity tfidf_cosine [] job_texts
          = repeat 0%Q (length job_texts)
        /\ length (calculate_similarity tfidf_cosine [] job_texts)
           = length job_texts).
Proof.
  split.
  - intros t. unfold calculate_similarity.
    now rewrite orb_true_r.
  - intros jt. unfold calculate_similarity. simpl.
    destruct jt as [|j r]; simpl; auto.
    now rewrite repeat_length.
Qed.

(** C10.  A user who declared no skills gets no skill gaps, whatever the
    job description says. *)
Theorem C10_no_skills_no_gaps (job_description : str) :
  identify_skill_gaps list_of_set [] job_description = [].
Proof.
  unfold identify_skill_gaps. now rewrite orb_true_r.
Qed.

(** C4.  For a non-empty job list and a profile whose combined text is not
    empty, and a count [top_n] that is not negative, the recommendations
    are sorted by non-increasing similarity score, entries with equal
    scores stand in the order of their jobs in the input, and there are
    [min(top_n, len(jobs))] of them. *)
Theorem C4_recommend_jobs_sorted_top_n
    (user_profile : profile) (jobs : list job) (top_n : Z) :
  jobs <> [] ->
  combine_user_profile user_profile <> [] ->
  (0 <= top_n)%Z ->
  let r := recommend_jobs tfidf_cosine list_of_set user_profile jobs top_n in
  StronglySorted (fun a b => similarity_score b <= similarity_score a) r
  /\ Z.of_nat (length r) = Z.min top_n (Z.of_nat (length jobs))
  /\ exists entries full : list recommendation,
       map rec_job entries = jobs
       /\ Permutation full entries
       /\ (forall z, filter (tied score_before z) full
                     = filter (tied score_before z) entries)
       /\ r = firstn (Z.to_nat top_n) full.
Proof.
  intros Hjobs Htext Hn r. subst r. unfold recommend_jobs.
  destruct jobs as [|j0 jr] eqn:Ej; [congruence|]. rewrite <- Ej in *.
  replace (is_nil jobs) with false by now rewrite Ej.
  destruct (combine_user_profile user_profile) as [|c t] eqn:Et; [congruence|].
  cbv beta iota zeta. simpl negb. cbv iota.
  rewrite slice_to_firstn by exact Hn.
  set (entries := build_results _ _ _ _ jobs).
  split; [|split].
  - apply StronglySorted_firstn.
    eapply StronglySorted_weaken;
      [|apply (@sort_by_sorted _ score_before score_before_total
                score_before_trans)].
    intros a b H. now apply Qle_bool_iff.
  - rewrite length_firstn, sort_by_length. unfold entries.
    rewrite build_results_length. lia.
  - exists entries, (sort_by score_before entries).
    repeat split.
    + apply build_results_jobs.
    + apply sort_by_perm.
    + intros z. apply (@sort_by_stable _ score_before score_before_trans).
Qed.

(** The vocabulary is written in lower case, without outer blanks, and has
    no empty word. *)
Lemma skill_keywords_shape e :
  In e RecommenderCore.skill_keywords ->
  lower e = e /\ strip e = e /\ e <> [].
Proof.
  intros H.
  assert (C : forallb (fun e => str_eqb (lower e) e && str_eqb (strip e) e
                                && truthy e)%bool
                      RecommenderCore.skill_keywords = true)
    by (vm_compute; reflexivity).
  rewrite forallb_forall in C. specialize (C e H).
  apply andb_true_iff in C as [C T]. apply andb_true_iff in C as [L S].
  apply str_eqb_eq in L, S. repeat split; auto.
  intros ->. discriminate T.
Qed.

(** C5.  The skill-gap list has at most ten entries; each of them is a word
    of the built-in vocabulary, occurs in the normalised job text, and is
    not among the user's skills, compared without regard to case (nor to
    blanks around the skill). *)
Theorem C5_skill_gaps_invariants
    (Hset : set_listing list_of_set)
    (user_skills : list str) (job_description : str) :
  let gaps := identify_skill_gaps list_of_set user_skills job_description in
  (length gaps <= 10)%nat
  /\ forall e, In e gaps ->
       In e RecommenderCore.skill_keywords
       /\ contains e (Recommender.preprocess_text job_description) = true
       /\ forall u, In u user_skills ->
            lower u <> lower e /\ strip (lower u) <> e.
Proof.
  intros gaps. subst gaps. unfold identify_skill_gaps.
  destruct (negb (truthy job_description) || is_nil user_skills)%bool;
    [split; [simpl; lia | intros e []]|].
  cbv zeta. split; [apply firstn_le_length|].
  intros e He. apply firstn_subset in He.
  apply (proj1 (proj2 (Hset _) e)) in He.
  apply filter_In in He as [He Hmem]. apply filter_In in He as [Hvoc Hin].
  rewrite preprocess_text_lower in Hin.
  destruct (skill_keywords_shape Hvoc) as (Hl & Hs & Hne).
  assert (Hstrip : forall u, In u user_skills -> strip (lower u) <> e).
  { intros u Hu E. apply negb_true_iff in Hmem.
    assert (M : mem e (map (fun skill => strip (lower skill))
                           (filter truthy user_skills)) = true).
    { apply mem_In. rewrite <- E. apply in_map with (f := fun s => strip (lower s)).
      apply filter_In. split; auto.
      destruct u; [|reflexivity]. now subst e. }
    congruence. }
  repeat split; auto.
  intros E. apply (Hstrip u H). rewrite E, Hl. exact Hs.
Qed.

End RecommenderFacts.

Lemma first_seen_set_listing : set_listing first_seen.
Proof.
  intros l. unfold first_seen. split.
  - apply NoDup_rev, NoDup_nodup.
  - intros x. rewrite <- in_rev, nodup_In, <- in_rev. reflexivity.
Qed.

Lemma C4_witness :
  let r := recommend_jobs Samples.by_length first_seen Samples.candidate
             [Samples.frontend; Samples.backend; Samples.dba] 2 in
  StronglySorted (fun a b => similarity_score b <= similarity_score a) r
  /\ Z.of_nat (length r) = Z.min 2 3
  /\ exists entries full : list recommendation,
       map rec_job entries = [Samples.frontend; Samples.backend; Samples.dba]
       /\ Permutation full entries
       /\ (forall z, filter (tied score_before z) full
                     = filter (tied score_before z) entries)
       /\ r = firstn 2 full.
Proof.
  apply (@C4_recommend_jobs_sorted_top_n Samples.by_length first_seen
           Samples.candidate
           [Samples.frontend; Samples.backend; Samples.dba] 2%Z).
  - discriminate.
  - vm_compute. discriminate.
  - lia.
Defined.

Lemma C5_witness :
  let gaps := identify_skill_gaps first_seen [py "Python "; py "Git"]
                (py "Need Python, SQL & AWS; docker, GIT") in
  (length gaps <= 10)%nat
  /\ forall e, In e gaps ->
       In e RecommenderCore.skill_keywords
       /\ contains e (Recommender.preprocess_text
                        (py "Need Python, SQL & AWS; docker, GIT")) = true
       /\ forall u, In u [py "Python "; py "Git"] ->
            lower u <> lower e /\ strip (lower u) <> e.
Proof.
  apply (@C5_skill_gaps_invariants first_seen first_seen_set_listing).
Defined.

(** ** The ATS scorer *)

Section AtsFacts.

Lemma py_min_100 : py_min 100 100 = 100.
Proof. reflexivity. Qed.

Lemma required_skills_none job_description :
  (forall k, In k common_skills -> contains k (lower job_description) = false) ->
  required_skills job_description = [].
Proof.
  intros H. unfold required_skills.
  induction common_skills as [|k r IH]; simpl; auto.
  rewrite H by now left. apply IH. intros k' Hk. apply H. now right.
Qed.

Lemma empty_entry_parsed user_skills :
  In [] (split is_comma user_skills) ->
  In [] (user_skills_list (SkillsStr user_skills)).
Proof.
  intros H. unfold user_skills_list.
  change (@nil ascii) with ((fun s => lower (strip s)) []) at 1.
  now apply in_map.
Qed.

(** Two skills strings with an empty entry: the empty string, and a
    string that ends with a comma. *)
Lemma split_empty_string : split is_comma [] = [[]].
Proof. reflexivity. Qed.

Lemma split_trailing_comma s :
  exists w ws, split is_comma (s ++ [","%char]) = w :: ws ++ [[]].
Proof.
  induction s as [|c r (w & ws & IH)].
  - now exists [], [].
  - simpl. rewrite IH. destruct (is_comma c).
    + now exists [], (w :: ws).
    + now exists (c :: w), ws.
Qed.

Lemma trailing_comma_empty_entry s : In [] (split is_comma (s ++ py ",")).
Proof.
  change (py ",") with [","%char].
  destruct (split_trailing_comma s) as (w & ws & ->).
  right. apply in_or_app. right. now left.
Qed.

(** C9.  When the comma-split skills string has an empty entry, the empty
    string is counted among the matched skills of every job text; and for a
    job text that names none of the vocabulary skills the score is 100. *)
Theorem C9_empty_skill_entry_matches (user_skills job_description : str) :
  In [] (split is_comma user_skills) ->
  let result := calculate_skills_match (SkillsStr user_skills) job_description in
  In [] (matched_skills (SkillsStr user_skills) job_description)
  /\ (1 <= sm_total_matched result)%nat
  /\ ((forall k, In k common_skills ->
                 contains k (lower job_description) = false) ->
      sm_score result = 100 /\ sm_percentage result = 100).
Proof.
  intros H result.
  assert (M : In [] (matched_skills (SkillsStr user_skills) job_description)).
  { unfold matched_skills. apply filter_In. split.
    - now apply empty_entry_parsed.
    - apply contains_nil. }
  split; [exact M|]. subst result. unfold calculate_skills_match.
  fold (matched_skills (SkillsStr user_skills) job_description).
  cbv zeta. simpl sm_total_matched. simpl sm_score. simpl sm_percentage.
  destruct (matched_skills (SkillsStr user_skills) job_description) as [|m ms];
    [destruct M|].
  split; [simpl; lia|].
  intros Hnone. rewrite (required_skills_none _ Hnone). simpl.
  now split.
Qed.

Lemma C9_witness :
  In [] (split is_comma (py "python,"))
  /\ let result := calculate_skills_match (SkillsStr (py "python,"))
                     (py "Bakery assistant wanted") in
     In [] (matched_skills (SkillsStr (py "python,"))
                           (py "Bakery assistant wanted"))
     /\ (1 <= sm_total_matched result)%nat
     /\ ((forall k, In k common_skills ->
                    contains k (lower (py "Bakery assistant wanted")) = false) ->
         sm_score result = 100 /\ sm_percentage result = 100).
Proof.
  split.
  - vm_compute. right. now left.
  - apply (@C9_empty_skill_entry_matches (py "python,")
             (py "Bakery assistant wanted")).
    vm_compute. right. now left.
Defined.

(** Without the empty entry the same job text gives the neutral score. *)
Example skills_match_neutral :
  sm_score (calculate_skills_match (SkillsStr (py "python"))
                                   (py "Bakery assistant wanted")) = 50
  /\ sm_score (calculate_skills_match (SkillsStr (py ""))
                                      (py "Bakery assistant wanted")) = 100.
Proof. split; reflexivity. Qed.

End AtsFacts.

Section EducationFacts.

Variable text : str.

Lemma level_loop_none levels acc :
  (forall d l, In (d, l) levels -> contains d text = false) ->
  fold_left (level_step text) levels acc = acc.
Proof.
  revert acc; induction levels as [|[d l] r IH]; intros acc H; simpl; auto.
  unfold level_step at 1. rewrite (H d l) by now left. simpl. apply IH.
  intros d' l' Hin. apply (H d' l'). now right.
Qed.

Lemma level_loop_grows levels acc :
  (fst acc <= fst (fold_left (level_step text) levels acc))%Z.
Proof.
  revert acc; induction levels as [|[d l] r IH]; intros acc; simpl; [lia|].
  etransitivity; [|apply IH].
  destruct (contains d text && (l >? fst acc)%Z)%bool eqn:E; simpl; [|lia].
  apply andb_true_iff in E as [_ E]. lia.
Qed.

Lemma level_loop_some levels acc d l :
  In (d, l) levels -> contains d text = true ->
  (l <= fst (fold_left (level_step text) levels acc))%Z.
Proof.
  revert acc; induction levels as [|[d' l'] r IH]; intros acc Hin Hc;
    [destruct Hin|].
  destruct Hin as [E|Hin]; [|now apply IH].
  injection E as -> ->. simpl. rewrite Hc. simpl.
  etransitivity; [|apply level_loop_grows].
  destruct (l >? fst acc)%Z eqn:G; simpl; lia.
Qed.

Lemma highest_level_none :
  (forall d l, In (d, l) education_levels -> contains d text = false) ->
  highest_level text = (0%Z, None).
Proof. intros H. unfold highest_level. now apply level_loop_none. Qed.

Lemma education_levels_positive d l :
  In (d, l) education_levels -> (0 < l)%Z /\ d <> [].
Proof.
  intros H.
  assert (C : forallb (fun e : str * Z => (0 <? snd e)%Z && truthy (fst e))%bool
                      education_levels = true) by reflexivity.
  rewrite forallb_forall in C. specialize (C _ H). simpl in C.
  apply andb_true_iff in C as [C T]. split; [lia|].
  intros ->. discriminate T.
Qed.

Lemma highest_level_some d l :
  In (d, l) education_levels -> contains d text = true ->
  (0 < fst (highest_level text))%Z.
Proof.
  intros Hin Hc. unfold highest_level.
  pose proof (@level_loop_some education_levels (0%Z, None) d l Hin Hc) as H.
  destruct (education_levels_positive Hin) as [P _].
  lia.
Qed.

End EducationFacts.

(** C1, as the code has it.  With an empty education text the education
    match is the fixed score 50, whatever the job text asks for.  The score
    40 is that of an education text which is not empty and names no degree
    keyword, against a job text that names one. *)
Theorem C1_education_match_without_degree (user_education job_description : str) :
  (user_education = [] ->
   em_score (calculate_education_match user_education job_description) = 50)
  /\ (user_education <> [] ->
      (forall d l, In (d, l) education_levels ->
                   contains d (lower user_education) = false) ->
      (exists d l, In (d, l) education_levels
                   /\ contains d (lower job_description) = true) ->
      em_score (calculate_education_match user_education job_description) = 40).
Proof.
  split.
  - intros ->. reflexivity.
  - intros Hne Hnone (d & l & Hin & Hc).
    unfold calculate_education_match.
    destruct user_education as [|c r]; [congruence|].
    destruct job_description as [|c' r'].
    { destruct (education_levels_positive Hin) as [_ Hd].
      destruct d; [congruence | discriminate Hc]. }
    simpl negb. simpl orb. cbv iota.
    rewrite (@highest_level_none _ Hnone).
    pose proof (@highest_level_some _ d l Hin Hc) as Hpos.
    destruct (highest_level (lower (c' :: r'))) as [required_level required_degree].
    simpl in Hpos.
    destruct (Z.eqb_spec required_level 0); [lia|].
    destruct (Z.geb_spec 0 required_level); [lia|].
    reflexivity.
Qed.

(** The example of the specification: the education text is empty, the job
    text asks for a PhD (a required level is found), and the score is not
    40 but 50. *)
Lemma C1_counterexample :
  (0 < fst (highest_level (lower (py "PhD required"))))%Z
  /\ em_score (calculate_education_match (py "") (py "PhD required")) = 50
  /\ ~ em_score (calculate_education_match (py "") (py "PhD required")) == 40.
Proof.
  split; [reflexivity|]. split; [reflexivity|].
  vm_compute. discriminate.
Qed.

Lemma C1_witness :
  em_score (calculate_education_match (py "") (py "PhD required")) = 50
  /\ em_score (calculate_education_match (py "self-taught")
                                         (py "PhD required")) = 40.
Proof.
  split.
  - apply (proj1 (C1_education_match_without_degree (py "") (py "PhD required"))).
    reflexivity.
  - apply (proj2 (C1_education_match_without_degree (py "self-taught")
                    (py "PhD required"))).
    + discriminate.
    + intros d l H. each_entry H.
    + exists (py "phd"), 100%Z. split; [now left | reflexivity].
Defined.

(** ** The analytics *)

Section SalaryFacts.

Lemma positive_not_zero x : is_positive x = true -> Qeq_bool x 0 = false.
Proof.
  unfold is_positive. intros H. apply negb_true_iff in H.
  destruct (Qeq_bool x 0) eqn:E; auto.
  apply Qeq_bool_iff in E.
  assert (L : Qle_bool x 0 = true) by (apply Qle_bool_iff; rewrite E; apply Qle_refl).
  congruence.
Qed.

Lemma positive_salary_filter v :
  positive_salary v = filter is_positive (field_values v).
Proof.
  destruct v as [x|]; simpl; auto.
  destruct (is_positive x) eqn:P.
  - now rewrite (positive_not_zero x P).
  - now destruct (Qeq_bool x 0).
Qed.

(** The loop of the code collects the pooled positive salaries. *)
Lemma collect_salaries_pooled jobs :
  collect_salaries jobs = pooled_positive jobs.
Proof.
  unfold collect_salaries, pooled_positive.
  induction jobs as [|j r IH]; simpl; auto.
  rewrite !filter_app, IH, !positive_salary_filter. reflexivity.
Qed.

Lemma pooled_positive_refilter jobs :
  filter is_positive (pooled_positive jobs) = pooled_positive jobs.
Proof.
  unfold pooled_positive.
  induction (flat_map _ jobs) as [|x r IH]; simpl; auto.
  destruct (is_positive x) eqn:P; simpl; auto.
  now rewrite P, IH.
Qed.

Lemma zero_or_absent_none v :
  zero_or_absent v -> filter is_positive (field_values v) = [].
Proof.
  destruct v as [x|]; simpl; auto. intros H.
  unfold is_positive.
  assert (L : Qle_bool x 0 = true) by (apply Qle_bool_iff; rewrite H; apply Qle_refl).
  now rewrite L.
Qed.

Lemma pooled_positive_none jobs :
  Forall (fun j => zero_or_absent (salary_min j)
                   /\ zero_or_absent (salary_max j)) jobs ->
  pooled_positive jobs = [].
Proof.
  unfold pooled_positive.
  induction 1 as [|j r [Hmin Hmax] _ IH]; simpl; auto.
  rewrite !filter_app, IH, (zero_or_absent_none _ Hmin),
    (zero_or_absent_none _ Hmax). reflexivity.
Qed.

Lemma Qle_bool_total a b : Qle_bool a b = true \/ Qle_bool b a = true.
Proof.
  rewrite !Qle_bool_iff.
  destruct (Qlt_le_dec a b) as [H|H]; [left; now apply Qlt_le_weak | now right].
Qed.

Lemma Qle_bool_trans a b c :
  Qle_bool a b = true -> Qle_bool b c = true -> Qle_bool a c = true.
Proof. rewrite !Qle_bool_iff. apply Qle_trans. Qed.

Lemma sorted_perm l : Permutation (sorted l) l.
Proof. apply sort_by_perm. Qed.

Lemma sorted_sorted l : StronglySorted Qle (sorted l).
Proof.
  eapply StronglySorted_weaken;
    [|apply (@sort_by_sorted _ Qle_bool Qle_bool_total Qle_bool_trans)].
  intros a b. apply Qle_bool_iff.
Qed.

(** C8.  Over the empty job list, and over jobs whose salary fields are
    all zero or absent, every statistic is 0.  When there are positive
    salaries, the median is the element at index [n / 2] of the pooled
    values in ascending order, [n] being their number: for an even [n] the
    upper of the two middle values. *)
Theorem C8_salary_statistics :
  calculate_salary_statistics [] = zero_statistics
  /\ (forall jobs,
        Forall (fun j => zero_or_absent (salary_min j)
                         /\ zero_or_absent (salary_max j)) jobs ->
        calculate_salary_statistics jobs = zero_statistics)
  /\ (forall jobs,
        pooled_positive jobs <> [] ->
        exists ascending,
          Permutation ascending (pooled_positive jobs)
          /\ StronglySorted Qle ascending
          /\ median (calculate_salary_statistics jobs)
             = nth (length (pooled_positive jobs) / 2) ascending 0).
Proof.
  split; [reflexivity|]. split.
  - intros jobs H. unfold calculate_salary_statistics.
    now rewrite collect_salaries_pooled, (pooled_positive_none H).
  - intros jobs H. exists (sorted (pooled_positive jobs)).
    split; [apply sorted_perm|]. split; [apply sorted_sorted|].
    unfold calculate_salary_statistics.
    rewrite collect_salaries_pooled, pooled_positive_refilter.
    destruct (pooled_positive jobs) as [|x r]; [congruence|].
    reflexivity.
Qed.

Lemma C8_witness :
  calculate_salary_statistics [Samples.frontend] = zero_statistics
  /\ exists ascending,
       Permutation ascending (pooled_positive [Samples.backend; Samples.dba])
       /\ StronglySorted Qle ascending
       /\ median (calculate_salary_statistics [Samples.backend; Samples.dba])
          = nth (length (pooled_positive [Samples.backend; Samples.dba]) / 2)
                ascending 0.
Proof.
  destruct C8_salary_statistics as (_ & Hzero & Hmedian).
  split.
  - apply Hzero. constructor; [|constructor].
    split; simpl; [exact I | reflexivity].
  - apply Hmedian. discriminate.
Defined.

(** Two pooled values: the median is the upper one, not their mean. *)
Example median_of_two :
  pooled_positive [Samples.backend] = [30000; 50000]
  /\ median (calculate_salary_statistics [Samples.backend]) = 50000.
Proof. split; reflexivity. Qed.

(** Three pooled values, taken from two jobs. *)
Example median_of_three :
  median (calculate_salary_statistics [Samples.backend; Samples.dba]) = 40000.
Proof. reflexivity. Qed.

End SalaryFacts.

Section SkillDemandFacts.

Lemma count_before_total a b :
  count_before a b = true \/ count_before b a = true.
Proof. unfold count_before. rewrite !Nat.leb_le. lia. Qed.

Lemma count_before_trans a b c :
  count_before a b = true -> count_before b c = true ->
  count_before a c = true.
Proof. unfold count_before. rewrite !Nat.leb_le. lia. Qed.

(** The entries come in descending order of their counts. *)
Lemma skill_demand_sorted jobs :
  StronglySorted (fun a b => (snd b <= snd a)%nat) (analyze_skill_demand jobs).
Proof.
  eapply StronglySorted_weaken;
    [|apply (@sort_by_sorted _ count_before count_before_total
               count_before_trans)].
  intros a b. apply Nat.leb_le.
Qed.

(** What an entry of the result is: a label of the table with the number
    of its keywords that occur in the joined descriptions, when that
    number is not zero. *)
Lemma skill_demand_entry jobs label n :
  In (label, n) (analyze_skill_demand jobs) <->
  exists keywords,
    In (label, keywords) Visualizer.skill_keywords
    /\ n = keyword_count keywords (job_descriptions jobs)
    /\ (0 < n)%nat.
Proof.
  unfold analyze_skill_demand. split.
  - intros H. apply (Permutation_in _ (sort_by_perm count_before _)) in H.
    unfold skill_counts in H. apply in_flat_map in H as ([l kws] & Hin & H).
    simpl in H.
    destruct (Nat.ltb_spec 0 (keyword_count kws (job_descriptions jobs)));
      [|destruct H].
    destruct H as [E|[]]. injection E as <- <-. now exists kws.
  - intros (kws & Hin & -> & Hpos).
    apply (Permutation_in _ (Permutation_sym (sort_by_perm count_before _))).
    unfold skill_counts. apply in_flat_map. exists (label, kws).
    split; auto. simpl.
    destruct (Nat.ltb_spec 0 (keyword_count kws (job_descriptions jobs)));
      [now left | lia].
Qed.

(** A count never exceeds the number of keywords of its label, however
    many jobs there are. *)
Lemma keyword_count_bound keywords corpus :
  (keyword_count keywords corpus <= length keywords)%nat.
Proof. unfold keyword_count. apply filter_length_le. Qed.

(** C2, at an input where the count is not a number of jobs.  One job whose
    description is "mysql": the label SQL gets the count 2, one for each of
    its keywords "sql" and "mysql" found in the text, although there is one
    job only. *)
Theorem C2_skill_demand_counts_keywords :
  analyze_skill_demand [Samples.dba] = [(py "SQL", 2%nat)]
  /\ length [Samples.dba] = 1%nat
  /\ job_descriptions [Samples.dba] = py "mysql".
Proof. repeat split. Qed.

End SkillDemandFacts.

(** * Further properties of the code *)

(** ** Slices and sorting *)

Lemma slice_to_length (A : Type) (n : Z) (l : list A) :
  Z.of_nat (length (slice_to n l))
  = if (0 <=? n)%Z then Z.min n (Z.of_nat (length l))
    else Z.max 0 (Z.of_nat (length l) + n).
Proof.
  unfold slice_to. destruct (Z.leb_spec 0 n); rewrite length_firstn; lia.
Qed.

Lemma slice_to_subset (A : Type) (n : Z) (l : list A) x :
  In x (slice_to n l) -> In x l.
Proof.
  unfold slice_to. destruct (0 <=? n)%Z; apply firstn_subset.
Qed.

Lemma slice_to_map (A B : Type) (f : A -> B) (n : Z) (l : list A) :
  map f (slice_to n l) = slice_to n (map f l).
Proof.
  unfold slice_to. rewrite length_map.
  destruct (0 <=? n)%Z; symmetry; apply firstn_map.
Qed.

Lemma slice_to_all (A : Type) (n : Z) (l : list A) :
  (Z.of_nat (length l) <= n)%Z -> slice_to n l = l.
Proof.
  intros H. unfold slice_to.
  destruct (Z.leb_spec 0 n); [|lia]. apply firstn_all2. lia.
Qed.

(** A list whose elements may all stand in front of one another is left
    as it is. *)
Lemma sort_by_all_tied (A : Type) (before : A -> A -> bool) (l : list A) :
  (forall x y, In x l -> In y l -> before x y = true) ->
  sort_by before l = l.
Proof.
  induction l as [|x r IH]; intros H; simpl; auto.
  rewrite IH by (intros; apply H; now right).
  destruct r as [|y t]; simpl; auto.
  now rewrite H by (simpl; auto).
Qed.

(** ** The recommender, further *)

Section RecommenderMore.

Variable tfidf_cosine : str -> list str -> option (list Q).
Variable list_of_set : list str -> list str.

Lemma recommend_jobs_eq (user_profile : profile) (jobs : list job) (top_n : Z) :
  jobs <> [] -> combine_user_profile user_profile <> [] ->
  recommend_jobs tfidf_cosine list_of_set user_profile jobs top_n
  = slice_to top_n
      (sort_by score_before
         (unsorted_results tfidf_cosine list_of_set user_profile jobs)).
Proof.
  intros Hj Ht. unfold recommend_jobs, unsorted_results, profile_skills.
  destruct jobs as [|j0 jr]; [congruence|].
  destruct (combine_user_profile user_profile) as [|c t]; [congruence|].
  reflexivity.
Qed.

Lemma unsorted_results_length user_profile jobs :
  length (unsorted_results tfidf_cosine list_of_set user_profile jobs)
  = length jobs.
Proof. apply build_results_length. Qed.

(** X1.  [recommend_jobs] returns the empty list exactly when there is no
    job, or the combined profile text is empty, or [top_n] is 0, or [top_n]
    is negative and takes away at least as many entries as there are
    jobs. *)
Theorem recommend_jobs_empty_iff
    (user_profile : profile) (jobs : list job) (top_n : Z) :
  recommend_jobs tfidf_cosine list_of_set user_profile jobs top_n = []
  <-> jobs = []
      \/ combine_user_profile user_profile = []
      \/ top_n = 0%Z
      \/ (top_n <= - Z.of_nat (length jobs))%Z.
Proof.
  destruct jobs as [|j0 jr] eqn:Ej.
  { split; [now left | reflexivity]. }
  rewrite <- Ej. assert (Hj : jobs <> []) by (rewrite Ej; discriminate).
  destruct (combine_user_profile user_profile) as [|c t] eqn:Et.
  { split; [now right; left|]. intros _.
    unfold recommend_jobs. rewrite Et, Ej. reflexivity. }
  assert (Ht : combine_user_profile user_profile <> [])
    by (rewrite Et; discriminate).
  rewrite <- Et, (@recommend_jobs_eq user_profile jobs top_n Hj Ht).
  set (l := sort_by _ _).
  assert (Hl : length l = length jobs)
    by (unfold l; rewrite sort_by_length; apply unsorted_results_length).
  assert (Hn : (0 < length jobs)%nat) by (rewrite Ej; simpl; lia).
  pose proof (slice_to_length top_n l) as L. rewrite Hl in L.
  split.
  - intros E. rewrite E in L. simpl in L.
    right. right. destruct (Z.leb_spec 0 top_n); lia.
  - intros [E|[E|H]]; [congruence | congruence |].
    apply length_zero_iff_nil.
    destruct (Z.leb_spec 0 top_n); lia.
Qed.

(** X2.  When [top_n] is at least the number of jobs, every job of the
    input is recommended exactly once; for any [top_n], a recommended job
    is a job of the input. *)
Theorem recommend_jobs_covers_all_jobs
    (user_profile : profile) (jobs : list job) (top_n : Z) :
  jobs <> [] -> combine_user_profile user_profile <> [] ->
  let r := recommend_jobs tfidf_cosine list_of_set user_profile jobs top_n in
  (forall e, In e r -> In (rec_job e) jobs)
  /\ ((Z.of_nat (length jobs) <= top_n)%Z -> Permutation (map rec_job r) jobs).
Proof.
  intros Hj Ht r. subst r. rewrite (@recommend_jobs_eq user_profile jobs top_n Hj Ht).
  assert (P : Permutation
                (map rec_job
                   (sort_by score_before
                      (unsorted_results tfidf_cosine list_of_set
                         user_profile jobs))) jobs).
  { rewrite (Permutation_map rec_job (sort_by_perm score_before _)).
    unfold unsorted_results. now rewrite build_results_jobs. }
  split.
  - intros e He. apply slice_to_subset in He.
    eapply Permutation_in; [exact P|]. now apply in_map.
  - intros H. rewrite slice_to_all; auto.
    now rewrite sort_by_length, unsorted_results_length.
Qed.

Lemma build_results_scores sims us i jobs e :
  In e (build_results list_of_set sims us i jobs) ->
  exists k, similarity_score e = nth k sims 0.
Proof.
  revert i; induction jobs as [|j r IH]; intros i; simpl; [intros []|].
  intros [<-|H]; [now exists i | eauto].
Qed.

Lemma nth_repeat_zero k n : nth k (repeat 0%Q n) 0%Q = 0%Q.
Proof.
  revert k; induction n as [|n IH]; intros [|k]; simpl; auto.
Qed.

(** X3.  When the vectoriser raises, every similarity score is 0 and the
    recommendations are the jobs in the order of the input, cut to
    [top_n]. *)
Theorem recommend_jobs_vectoriser_failure
    (user_profile : profile) (jobs : list job) (top_n : Z) :
  jobs <> [] -> combine_user_profile user_profile <> [] ->
  tfidf_cosine (combine_user_profile user_profile)
               (map extract_job_text jobs) = None ->
  let r := recommend_jobs tfidf_cosine list_of_set user_profile jobs top_n in
  map rec_job r = slice_to top_n jobs
  /\ Forall (fun e => similarity_score e = 0) r.
Proof.
  intros Hj Ht Hnone r. subst r. rewrite (@recommend_jobs_eq user_profile jobs top_n Hj Ht).
  assert (Z : forall e,
             In e (unsorted_results tfidf_cosine list_of_set user_profile jobs)
             -> similarity_score e = 0).
  { intros e He. unfold unsorted_results in He.
    apply build_results_scores in He as [k ->].
    unfold calculate_similarity. rewrite Hnone.
    destruct (negb (truthy (combine_user_profile user_profile))
              || is_nil (map extract_job_text jobs))%bool;
      apply nth_repeat_zero. }
  rewrite sort_by_all_tied.
  - split.
    + rewrite slice_to_map. unfold unsorted_results.
      now rewrite build_results_jobs.
    + apply Forall_forall. intros e He. apply Z.
      now apply slice_to_subset in He.
  - intros x y Hx Hy. unfold score_before.
    now rewrite (Z x Hx), (Z y Hy).
Qed.

(** X4.  A negative [top_n] does not give an empty answer: the slice
    [results[:top_n]] drops the [-top_n] entries with the lowest scores
    and returns the others. *)
Theorem recommend_jobs_negative_top_n
    (user_profile : profile) (jobs : list job) (top_n : Z) :
  jobs <> [] -> combine_user_profile user_profile <> [] ->
  (top_n < 0)%Z ->
  Z.of_nat (length (recommend_jobs tfidf_cosine list_of_set user_profile
                                   jobs top_n))
  = Z.max 0 (Z.of_nat (length jobs) + top_n).
Proof.
  intros Hj Ht Hn. rewrite (@recommend_jobs_eq user_profile jobs top_n Hj Ht), slice_to_length.
  rewrite sort_by_length, unsorted_results_length.
  destruct (Z.leb_spec 0 top_n); [lia | reflexivity].
Qed.

End RecommenderMore.

(** ** The skill gaps, further *)

Section SkillGapsMore.

Variable list_of_set : list str -> list str.
Hypothesis Hset : set_listing list_of_set.

Lemma identify_skill_gaps_eq (user_skills : list str) (job_description : str) :
  job_description <> [] -> user_skills <> [] ->
  identify_skill_gaps list_of_set user_skills job_description
  = firstn 10 (list_of_set (missing_skills user_skills job_description)).
Proof.
  intros Hj Hu. unfold identify_skill_gaps, missing_skills, user_skills_set.
  destruct job_description; [congruence|].
  destruct user_skills; [congruence|].
  cbn [truthy negb orb is_nil]. reflexivity.
Qed.

Lemma identify_skill_gaps_subset user_skills job_description g :
  In g (identify_skill_gaps list_of_set user_skills job_description) ->
  In g (missing_skills user_skills job_description).
Proof.
  unfold identify_skill_gaps.
  destruct (negb (truthy job_description) || is_nil user_skills)%bool;
    [intros []|].
  intros H. apply firstn_subset in H.
  now apply (proj1 (proj2 (Hset _) g)) in H.
Qed.

Lemma missing_skills_spec user_skills job_description g :
  In g (missing_skills user_skills job_description)
  <-> In g RecommenderCore.skill_keywords
      /\ contains g (Recommender.preprocess_text job_description) = true
      /\ ~ In g (user_skills_set user_skills).
Proof.
  unfold missing_skills. rewrite !filter_In, preprocess_text_lower.
  rewrite negb_true_iff, <- not_true_iff_false, mem_In. tauto.
Qed.

Lemma not_in_user_skills_set user_skills g u :
  In g RecommenderCore.skill_keywords ->
  ~ In g (user_skills_set user_skills) ->
  In u user_skills -> lower u <> g.
Proof.
  intros Hvoc Hnot Hu E.
  destruct (skill_keywords_shape Hvoc) as (_ & Hs & Hne).
  apply Hnot. unfold user_skills_set.
  rewrite <- Hs, <- E.
  apply in_map with (f := fun skill => strip (lower skill)).
  apply filter_In. split; auto.
  destruct u; [|reflexivity]. now subst g.
Qed.

Lemma firstn_NoDup (A : Type) n (l : list A) : NoDup l -> NoDup (firstn n l).
Proof.
  intros H. rewrite <- (firstn_skipn n l) in H.
  now apply NoDup_app_remove_r in H.
Qed.

(** X6.  The gap list never names a skill twice.  For a job description
    and a list of user skills that are both not empty, when the job text
    has at most ten vocabulary skills the user lacks, the gap list holds
    exactly these: a vocabulary skill is reported if and only if it occurs
    in the normalised job text and is not among the user's skills.  (With
    no user skill, or no job description, the list is empty.) *)
Theorem identify_skill_gaps_complete
    (user_skills : list str) (job_description : str) :
  NoDup (identify_skill_gaps list_of_set user_skills job_description)
  /\ (job_description <> [] -> user_skills <> [] ->
      (length (missing_skills user_skills job_description) <= 10)%nat ->
      forall g,
        In g (identify_skill_gaps list_of_set user_skills job_description)
        <-> In g RecommenderCore.skill_keywords
            /\ contains g (Recommender.preprocess_text job_description) = true
            /\ ~ In g (user_skills_set user_skills)).
Proof.
  split.
  - unfold identify_skill_gaps.
    destruct (negb (truthy job_description) || is_nil user_skills)%bool;
      [constructor|].
    apply firstn_NoDup, (proj1 (Hset _)).
  - intros Hj Hu Hlen g.
    rewrite (identify_skill_gaps_eq Hj Hu), <- missing_skills_spec.
    destruct (Hset (missing_skills user_skills job_description)) as [Hnd Hin].
    rewrite firstn_all2; [apply Hin|].
    etransitivity; [|exact Hlen].
    apply NoDup_incl_length; auto. intros x. apply Hin.
Qed.

Variable tfidf_cosine : str -> list str -> option (list Q).

Lemma build_results_gaps sims us i jobs e :
  In e (build_results list_of_set sims us i jobs) ->
  skill_gaps e
  = identify_skill_gaps list_of_set us
      (get_or_empty (description (rec_job e))).
Proof.
  revert i; induction jobs as [|j r IH]; intros i; simpl; [intros []|].
  intros [<-|H]; [reflexivity | eauto].
Qed.

Lemma recommend_jobs_from_results user_profile jobs top_n e :
  In e (recommend_jobs tfidf_cosine list_of_set user_profile jobs top_n) ->
  In e (unsorted_results tfidf_cosine list_of_set user_profile jobs).
Proof.
  intros H.
  destruct jobs as [|j0 jr] eqn:Ej; [destruct H|]. rewrite <- Ej in *.
  destruct (combine_user_profile user_profile) as [|c t] eqn:Et.
  { unfold recommend_jobs in H. rewrite Et, Ej in H. destruct H. }
  rewrite (@recommend_jobs_eq tfidf_cosine list_of_set user_profile jobs top_n)
    in H by (rewrite ?Ej, ?Et; discriminate).
  apply slice_to_subset in H.
  eapply Permutation_in; [apply sort_by_perm | exact H].
Qed.

(** X5.  In every recommendation the gap list has at most ten entries,
    all of them vocabulary skills found in the description of that job, and
    none of them a skill of the profile, compared without regard to
    case. *)
Theorem recommend_jobs_skill_gaps
    (user_profile : profile) (jobs : list job) (top_n : Z) :
  forall e,
    In e (recommend_jobs tfidf_cosine list_of_set user_profile jobs top_n) ->
    (length (skill_gaps e) <= 10)%nat
    /\ forall g, In g (skill_gaps e) ->
         In g RecommenderCore.skill_keywords
         /\ contains g (Recommender.preprocess_text
                          (get_or_empty (description (rec_job e)))) = true
         /\ forall u, In u (profile_skills user_profile) -> lower u <> g.
Proof.
  intros e He. apply recommend_jobs_from_results in He.
  unfold unsorted_results in He.
  assert (G : skill_gaps e
              = identify_skill_gaps list_of_set (profile_skills user_profile)
                  (get_or_empty (description (rec_job e)))).
  { eapply build_results_gaps; eauto. }
  rewrite G. split.
  - unfold identify_skill_gaps.
    destruct (negb _ || _)%bool; [simpl; lia | apply firstn_le_length].
  - intros g Hg. apply identify_skill_gaps_subset in Hg.
    pose proof Hg as Hg'. apply missing_skills_spec in Hg' as (Hv & Hc & Hn).
    repeat split; auto.
    intros u Hu. eapply not_in_user_skills_set; eauto.
Qed.

End SkillGapsMore.

(** ** The combined texts *)

Lemma get_truthy_some f s : get_truthy f = Some s -> s <> [].
Proof.
  destruct f as [[|c t]|]; simpl; intros H; try discriminate H.
  injection H as <-. discriminate.
Qed.

Lemma join_space_nonempty p rest : p <> [] -> join_space (p :: rest) <> [].
Proof.
  intros Hp. destruct p as [|c t]; [congruence|].
  destruct rest; discriminate.
Qed.

(** The parts of a combined text that are there. *)
Ltac part f E :=
  destruct (get_truthy f) as [?s|] eqn:E;
  [apply get_truthy_some in E|].

(** X7.  The combined text of a job is empty exactly when its title,
    description, category and company are each absent or empty; the
    combined text of a profile is empty exactly when its skills give no
    text and its education, experience and location are each absent or
    empty. *)
Theorem combined_text_empty_iff :
  (forall j : job,
     extract_job_text j = []
     <-> get_truthy (title j) = None /\ get_truthy (description j) = None
         /\ get_truthy (category j) = None /\ get_truthy (company j) = None)
  /\ (forall p : profile,
        combine_user_profile p = []
        <-> match skills p with
            | Some (SkillsList l) => join_space l = []
            | Some (SkillsStr s) => s = []
            | None => True
            end
            /\ get_truthy (education p) = None
            /\ get_truthy (experience p) = None
            /\ get_truthy (location p) = None).
Proof.
  split.
  - intros j. unfold extract_job_text.
    part (title j) E1; [|part (description j) E2;
                         [|part (category j) E3; [|part (company j) E4]]];
      simpl app;
      try (split; [intros H; now apply join_space_nonempty in H
                  | intros (? & ? & ? & ?); discriminate]).
    split; auto.
  - intros p. unfold combine_user_profile.
    destruct (skills p) as [[s|l]|].
    + destruct s as [|c t]; simpl truthy; cbv iota.
      * part (education p) E2; [|part (experience p) E3;
                                 [|part (location p) E4]];
          simpl app;
          try (split; [intros H; now apply join_space_nonempty in H
                      | intros (? & ? & ? & ?); discriminate]).
        split; auto.
      * split; [intros H; apply join_space_nonempty in H; [easy|discriminate]
               | intros (? & _); discriminate].
    + destruct l as [|x l']; simpl is_nil; cbv iota.
      * part (education p) E2; [|part (experience p) E3;
                                 [|part (location p) E4]];
          simpl app;
          try (split; [intros H; now apply join_space_nonempty in H
                      | intros (? & ? & ? & ?); discriminate]).
        split; auto.
      * destruct (join_space (x :: l')) as [|c t] eqn:J.
        -- part (education p) E2; [|part (experience p) E3;
                                     [|part (location p) E4]];
             simpl app;
             try (split; [intros H; destruct s; [congruence|];
                          simpl in H; discriminate H
                         | intros (? & ? & ? & ?); discriminate]).
           split; auto.
        -- split; [intros H; apply join_space_nonempty in H; [easy|discriminate]
                  | intros (? & _); discriminate].
    + part (education p) E2; [|part (experience p) E3;
                               [|part (location p) E4]];
        simpl app;
        try (split; [intros H; now apply join_space_nonempty in H
                    | intros (? & ? & ? & ?); discriminate]).
      split; auto.
Qed.

(** ** Percentages *)


Lemma nat_Q_nonneg n : 0 <= nat_Q n.
Proof. unfold nat_Q, Qle. simpl. lia. Qed.

Lemma ratio_percent m n :
  (0 < n)%nat ->
  nat_Q m / nat_Q n * 100 == (Z.of_nat m * 100 # Pos.of_nat n).
Proof.
  intros Hn. destruct n as [|k]; [lia|].
  unfold nat_Q, Qdiv, Qmult, Qinv, Qeq, inject_Z.
  cbn [Qnum Qden].
  change (Z.of_nat (S k)) with (Z.pos (Pos.of_succ_nat k)).
  cbn [Qnum Qden]. rewrite <- Pos.of_nat_succ. lia.
Qed.

Lemma pos_of_nat_Z n : (0 < n)%nat -> Z.pos (Pos.of_nat n) = Z.of_nat n.
Proof. intros H. destruct n; [lia|]. rewrite <- Pos.of_nat_succ. lia. Qed.

Lemma percent_le_100 m n :
  (0 < n)%nat -> (nat_Q m / nat_Q n * 100 <= 100 <-> (m <= n)%nat).
Proof.
  intros Hn. rewrite (ratio_percent m Hn). unfold Qle. cbn [Qnum Qden].
  rewrite (pos_of_nat_Z Hn). lia.
Qed.

Lemma percent_eq_100 m n :
  (0 < n)%nat -> (nat_Q m / nat_Q n * 100 == 100 <-> m = n).
Proof.
  intros Hn. rewrite (ratio_percent m Hn). unfold Qeq. cbn [Qnum Qden].
  rewrite (pos_of_nat_Z Hn). lia.
Qed.

Lemma percent_eq_0 m n :
  (0 < n)%nat -> (nat_Q m / nat_Q n * 100 == 0 <-> m = 0%nat).
Proof.
  intros Hn. rewrite (ratio_percent m Hn). unfold Qeq. cbn [Qnum Qden]. lia.
Qed.

Lemma percent_nonneg m n : 0 <= nat_Q m / nat_Q n * 100.
Proof.
  destruct n as [|k].
  - unfold nat_Q, Qdiv, Qmult, Qinv, Qle. simpl. lia.
  - rewrite (@ratio_percent m (S k)) by lia. unfold Qle. simpl. lia.
Qed.

Lemma py_min_le a b : py_min a b <= b.
Proof.
  unfold py_min. destruct (Qle_bool a b) eqn:E.
  - now apply Qle_bool_iff.
  - apply Qle_refl.
Qed.

Lemma py_min_nonneg a b : 0 <= a -> 0 <= b -> 0 <= py_min a b.
Proof. unfold py_min. now destruct (Qle_bool a b). Qed.

(** ** The skills match, further *)

Lemma filter_none (A : Type) (f : A -> bool) (l : list A) :
  (forall x, In x l -> f x = false) -> filter f l = [].
Proof.
  induction l as [|x r IH]; intros H; simpl; auto.
  rewrite H by now left. apply IH. intros; apply H; now right.
Qed.

Lemma common_skills_NoDup : NoDup common_skills.
Proof.
  assert (E : nodup (list_eq_dec ascii_dec) common_skills = common_skills)
    by (vm_compute; reflexivity).
  rewrite <- E. apply NoDup_nodup.
Qed.

Lemma skills_percentage_full (m n : nat) :
  (0 < n)%nat -> (n <= m)%nat ->
  py_min (nat_Q m / nat_Q n * 100) 100 == 100.
Proof.
  intros Hpos Hle. unfold py_min.
  destruct (Qle_bool _ 100) eqn:B; [|reflexivity].
  apply Qle_bool_iff, (percent_le_100 _ Hpos) in B.
  apply (percent_eq_100 _ Hpos). lia.
Qed.

Section SkillsMatchMore.

Variable user_skills : skills_value.
Variable job_description : str.

Lemma user_skills_list_lowered :
  map lower (user_skills_list user_skills) = user_skills_list user_skills.
Proof.
  unfold user_skills_list. destruct user_skills as [s|l];
    rewrite map_map; apply map_ext; intros x; apply lower_idem.
Qed.

Lemma required_skills_eq :
  required_skills job_description
  = filter (fun skill => contains skill (lower job_description)) common_skills.
Proof. reflexivity. Qed.

Lemma required_skills_In k :
  In k (required_skills job_description)
  <-> In k common_skills /\ contains k (lower job_description) = true.
Proof. rewrite required_skills_eq, filter_In. reflexivity. Qed.

Lemma matched_skills_In k :
  In k (matched_skills user_skills job_description)
  <-> In k (user_skills_list user_skills)
      /\ contains k (lower job_description) = true.
Proof. unfold matched_skills. rewrite filter_In. reflexivity. Qed.

Lemma required_skills_NoDup : NoDup (required_skills job_description).
Proof. rewrite required_skills_eq. apply NoDup_filter, common_skills_NoDup. Qed.

(** The record that [calculate_skills_match] returns, field by field. *)
Lemma skills_match_fields :
  let matched := matched_skills user_skills job_description in
  let required := required_skills job_description in
  let result := calculate_skills_match user_skills job_description in
  sm_score result
  = py_min (if negb (is_nil required)
            then nat_Q (length matched) / nat_Q (length required) * 100
            else if negb (is_nil matched) then 100 else 50) 100
  /\ sm_matched result = firstn 10 matched
  /\ sm_missing result
     = firstn 10 (filter (fun skill =>
                            negb (mem skill (user_skills_list user_skills)))
                         required).
Proof.
  cbv zeta. unfold calculate_skills_match. cbn [sm_score sm_matched sm_missing].
  rewrite user_skills_list_lowered. repeat split.
Qed.

(** X8.  The skills score lies between 0 and 100, and the lists of
    matched and of missing skills have at most ten entries each. *)
Theorem skills_match_bounds :
  let result := calculate_skills_match user_skills job_description in
  0 <= sm_score result /\ sm_score result <= 100
  /\ (length (sm_matched result) <= 10)%nat
  /\ (length (sm_missing result) <= 10)%nat.
Proof.
  destruct skills_match_fields as (Es & Em & Ex). cbv zeta.
  rewrite Es, Em, Ex.
  split; [|split; [apply py_min_le | split; apply firstn_le_length]].
  apply py_min_nonneg; [|discriminate].
  destruct (negb (is_nil (required_skills job_description)));
    [apply percent_nonneg|].
  destruct (negb (is_nil (matched_skills user_skills job_description)));
    discriminate.
Qed.

(** X9.  When the job text names at least one vocabulary skill and the
    user lists every vocabulary skill it names, no skill is missing and the
    score is 100. *)
Theorem skills_match_all_required_listed :
  required_skills job_description <> [] ->
  (forall k, In k (required_skills job_description) ->
             In k (user_skills_list user_skills)) ->
  let result := calculate_skills_match user_skills job_description in
  sm_missing result = [] /\ sm_score result == 100.
Proof.
  intros Hne Hall. destruct skills_match_fields as (Es & _ & Ex). cbv zeta.
  rewrite Es, Ex. split.
  - rewrite filter_none; [reflexivity|].
    intros k Hk. apply negb_false_iff, mem_In. now apply Hall.
  - assert (Hlen : (length (required_skills job_description)
                    <= length (matched_skills user_skills job_description))%nat).
    { apply NoDup_incl_length; [apply required_skills_NoDup|].
      intros k Hk. apply matched_skills_In. split.
      - now apply Hall.
      - apply required_skills_In in Hk as [_ Hc]. exact Hc. }
    revert Hne Hlen.
    generalize (matched_skills user_skills job_description) as matched.
    generalize (required_skills job_description) as required.
    intros required matched Hne Hlen.
    destruct required as [|k0 r0]; [congruence|].
    cbn [is_nil negb].
    apply skills_percentage_full; [simpl; lia | exact Hlen].
Qed.

(** X10.  A skill reported as missing is a vocabulary skill that occurs in
    the lowered job text and that the user does not list; a skill reported
    as matched is one the user lists and that occurs in the lowered job
    text.  No skill is reported as both. *)
Theorem skills_match_missing_sound :
  let result := calculate_skills_match user_skills job_description in
  (forall k, In k (sm_missing result) ->
     In k common_skills
     /\ contains k (lower job_description) = true
     /\ ~ In k (user_skills_list user_skills)
     /\ ~ In k (sm_matched result))
  /\ (forall k, In k (sm_matched result) ->
        In k (user_skills_list user_skills)
        /\ contains k (lower job_description) = true).
Proof.
  destruct skills_match_fields as (_ & Em & Ex). cbv zeta. rewrite Em, Ex.
  assert (M : forall k,
             In k (firstn 10 (matched_skills user_skills job_description)) ->
             In k (user_skills_list user_skills)
             /\ contains k (lower job_description) = true).
  { intros k Hk. apply firstn_subset in Hk.
    apply matched_skills_In in Hk. exact Hk. }
  split; [|exact M].
  intros k Hk. apply firstn_subset in Hk.
  apply filter_In in Hk as [Hr Hn].
  apply required_skills_In in Hr as [Hv Hc].
  assert (N : ~ In k (user_skills_list user_skills)).
  { intros H. apply mem_In in H. rewrite H in Hn. discriminate Hn. }
  repeat split; auto. intros H. apply M in H as [H1 _]. exact (N H1).
Qed.

End SkillsMatchMore.

(** ** The education match, further *)

Section EducationMore.

Lemma education_match_eq (user_education job_description : str) :
  user_education <> [] -> job_description <> [] ->
  calculate_education_match user_education job_description
  = let (score, details) :=
      education_outcome (highest_level (lower user_education))
                        (highest_level (lower job_description)) in
    {| em_score := py_min score 100; em_details := details |}.
Proof.
  intros Hu Hj. unfold calculate_education_match, education_outcome.
  destruct user_education as [|c r]; [congruence|].
  destruct job_description as [|c' r']; [congruence|].
  cbn [truthy negb orb].
  destruct (highest_level (lower (c :: r))) as [ul ud].
  destruct (highest_level (lower (c' :: r'))) as [rl rd].
  reflexivity.
Qed.

Lemma level_loop_found text levels acc :
  incl levels education_levels ->
  level_found text acc ->
  level_found text (fold_left (level_step text) levels acc).
Proof.
  revert acc; induction levels as [|[d l] r IH]; intros acc Hi Ha; simpl; auto.
  apply IH; [intros x Hx; apply Hi; right; exact Hx|].
  unfold level_step.
  destruct (contains d text) eqn:C; simpl; [|exact Ha].
  destruct (l >? fst acc)%Z; [|exact Ha].
  right. exists d. simpl. repeat split; auto. apply Hi. left. reflexivity.
Qed.

Lemma highest_level_found text : level_found text (highest_level text).
Proof.
  unfold highest_level. apply level_loop_found.
  - apply incl_refl.
  - left. reflexivity.
Qed.

(** X12.  The level found in a text is the greatest level of the degree
    keywords that occur in it, and the degree found is a keyword that
    occurs in the text and has that level; when no keyword occurs the level
    is 0 and there is no degree. *)
Theorem highest_level_is_maximum (text : str) :
  (forall d l, In (d, l) education_levels -> contains d text = true ->
               (l <= fst (highest_level text))%Z)
  /\ ((highest_level text = (0%Z, None)
       /\ forall d l, In (d, l) education_levels -> contains d text = false)
      \/ exists d, snd (highest_level text) = Some d
                   /\ In (d, fst (highest_level text)) education_levels
                   /\ contains d text = true).
Proof.
  assert (M : forall d l, In (d, l) education_levels ->
                          contains d text = true ->
                          (l <= fst (highest_level text))%Z).
  { intros d l Hin Hc. unfold highest_level.
    apply (@level_loop_some text education_levels (0%Z, None) d l Hin Hc). }
  split; [exact M|].
  destruct (highest_level_found text) as [E|F]; [left | right; exact F].
  split; [exact E|].
  intros d l Hin. destruct (contains d text) eqn:C; [|reflexivity].
  pose proof (M d l Hin C) as H. rewrite E in H. simpl in H.
  destruct (education_levels_positive Hin) as [P _]. lia.
Qed.

Lemma highest_level_bound text d l :
  In (d, l) education_levels -> contains d text = true ->
  (l <= fst (highest_level text))%Z.
Proof.
  intros Hin Hc. unfold highest_level.
  apply (@level_loop_some text education_levels (0%Z, None) d l Hin Hc).
Qed.

Lemma education_level_values d l :
  In (d, l) education_levels -> In l level_values.
Proof.
  intros H. simpl in H.
  repeat (destruct H as [H|H];
          [injection H as <- <-; unfold level_values; simpl; tauto|]).
  destruct H.
Qed.

Lemma highest_level_values text : In (fst (highest_level text)) level_values.
Proof.
  destruct (highest_level_found text) as [E|(d & _ & Hin & _)].
  - rewrite E. left. reflexivity.
  - exact (education_level_values Hin).
Qed.

Lemma education_outcome_bounds ul ud rl rd :
  In ul level_values -> In rl level_values ->
  20 <= py_min (fst (education_outcome (ul, ud) (rl, rd))) 100
  /\ py_min (fst (education_outcome (ul, ud) (rl, rd))) 100 <= 100.
Proof.
  unfold level_values. simpl. intros Hu Hr.
  repeat (destruct Hu as [<-|Hu]); try destruct Hu;
    repeat (destruct Hr as [<-|Hr]); try destruct Hr;
    split; apply Qle_bool_iff; reflexivity.
Qed.

(** X11.  The education score always lies between 20 and 100. *)
Theorem education_match_bounds (user_education job_description : str) :
  20 <= em_score (calculate_education_match user_education job_description)
  /\ em_score (calculate_education_match user_education job_description) <= 100.
Proof.
  destruct user_education as [|c r];
    [split; apply Qle_bool_iff; reflexivity|].
  destruct job_description as [|c' r'];
    [split; apply Qle_bool_iff; reflexivity|].
  rewrite education_match_eq by discriminate.
  pose proof (highest_level_values (lower (c :: r))) as Hu.
  pose proof (highest_level_values (lower (c' :: r'))) as Hr.
  destruct (highest_level (lower (c :: r))) as [ul ud].
  destruct (highest_level (lower (c' :: r'))) as [rl rd].
  pose proof (@education_outcome_bounds ul ud rl rd Hu Hr) as B.
  destruct (education_outcome (ul, ud) (rl, rd)) as [score details].
  exact B.
Qed.

(** X13.  When the education text names a degree keyword whose level is
    at least the level of every degree keyword the job text names, and the
    job text names one, the score is 100 and the details report the degree
    found in the education text. *)
Theorem education_match_meets_requirement
    (user_education job_description d : str) (l : Z) :
  user_education <> [] ->
  In (d, l) education_levels ->
  contains d (lower user_education) = true ->
  (exists d' l', In (d', l') education_levels
                 /\ contains d' (lower job_description) = true) ->
  (forall d' l', In (d', l') education_levels ->
                 contains d' (lower job_description) = true -> (l' <= l)%Z) ->
  let result := calculate_education_match user_education job_description in
  em_score result = 100
  /\ exists user_degree,
       em_details result = MeetsRequirement (Some user_degree)
       /\ contains user_degree (lower user_education) = true.
Proof.
  intros Hu Hin Hc (d' & l' & Hin' & Hc') Hmax result. subst result.
  assert (Hj : job_description <> []).
  { intros ->. destruct (education_levels_positive Hin') as [_ Hd].
    destruct d'; [congruence | discriminate Hc']. }
  rewrite (education_match_eq Hu Hj).
  pose proof (highest_level_bound _ Hin Hc) as Bu.
  pose proof (highest_level_bound _ Hin' Hc') as Br.
  destruct (education_levels_positive Hin) as [Pl _].
  destruct (education_levels_positive Hin') as [Pl' _].
  destruct (highest_level_found (lower user_education)) as [Eu|(ud & Eud & _ & Cu)];
    [rewrite Eu in Bu; simpl in Bu; lia|].
  destruct (highest_level_found (lower job_description))
    as [Er|(rd & _ & Hinr & Cr)];
    [rewrite Er in Br; simpl in Br; lia|].
  pose proof (Hmax _ _ Hinr Cr) as Hle.
  destruct (highest_level (lower user_education)) as [ul ud'].
  destruct (highest_level (lower job_description)) as [rl rd'].
  simpl in *. subst ud'.
  unfold education_outcome.
  destruct (Z.eqb_spec rl 0); [lia|].
  destruct (Z.geb_spec ul rl); [|lia].
  split; [reflexivity|]. exists ud. split; [reflexivity | exact Cu].
Qed.

End EducationMore.

(** ** The keyword match and the experience match *)

Lemma filter_partition_length (A : Type) (f : A -> bool) (l : list A) :
  (length (filter f l) + length (filter (fun x => negb (f x)) l))%nat
  = length l.
Proof.
  induction l as [|x r IH]; simpl; auto.
  destruct (f x); simpl; lia.
Qed.

Lemma filter_perm (A : Type) (f : A -> bool) (l l' : list A) :
  Permutation l l' -> Permutation (filter f l) (filter f l').
Proof.
  induction 1 as [|x l l' _ IH|x y l|l l' l'' _ IH1 _ IH2]; simpl.
  - constructor.
  - destruct (f x); auto.
  - destruct (f x), (f y); auto. apply perm_swap.
  - etransitivity; eauto.
Qed.

Lemma StronglySorted_filter (A : Type) (R : A -> A -> Prop) (f : A -> bool)
    (l : list A) :
  StronglySorted R l -> StronglySorted R (filter f l).
Proof.
  induction 1 as [|x r Hr IH Hx]; simpl; [constructor|].
  destruct (f x); auto. constructor; auto.
  rewrite Forall_forall in *. intros y Hy. apply Hx.
  apply filter_In in Hy. tauto.
Qed.

Lemma is_positive_iff x : is_positive x = true <-> 0 < x.
Proof.
  unfold is_positive. rewrite negb_true_iff, <- not_true_iff_false, Qle_bool_iff.
  split; [apply Qnot_le_lt | apply Qlt_not_le].
Qed.

Lemma weight_before_total a b :
  weight_before a b = true \/ weight_before b a = true.
Proof.
  unfold weight_before. rewrite !Qle_bool_iff.
  destruct (Qlt_le_dec (snd a) (snd b)) as [H|H];
    [right; now apply Qlt_le_weak | now left].
Qed.

Lemma weight_before_trans a b c :
  weight_before a b = true -> weight_before b c = true ->
  weight_before a c = true.
Proof.
  unfold weight_before. rewrite !Qle_bool_iff. intros H1 H2.
  eapply Qle_trans; eauto.
Qed.

Section KeywordsMore.

Variable tfidf_features : str -> nat -> option (list (str * Q)).

(** X14.  [extract_keywords] returns nothing for an empty text or when the
    vectoriser raises.  Otherwise it returns the names of exactly the
    features whose score is greater than zero, in the order of
    non-increasing score. *)
Theorem extract_keywords_positive_sorted :
  (forall top_n, extract_keywords tfidf_features [] top_n = [])
  /\ (forall text top_n,
        tfidf_features text top_n = None ->
        extract_keywords tfidf_features text top_n = [])
  /\ (forall text top_n keyword_scores,
        text <> [] ->
        tfidf_features text top_n = Some keyword_scores ->
        exists kept,
          extract_keywords tfidf_features text top_n = map fst kept
          /\ StronglySorted (fun a b => snd b <= snd a) kept
          /\ Permutation kept
               (filter (fun ks => is_positive (snd ks)) keyword_scores)
          /\ Forall (fun ks => 0 < snd ks) kept).
Proof.
  split; [reflexivity|]. split.
  - intros text n H. unfold extract_keywords. rewrite H.
    now destruct (negb (truthy text)).
  - intros text n ks Ht H. unfold extract_keywords. rewrite H.
    destruct text as [|c r]; [congruence|]. cbn [truthy negb].
    exists (filter (fun ks => is_positive (snd ks)) (sort_by weight_before ks)).
    split; [reflexivity|]. split; [|split].
    + apply StronglySorted_filter.
      eapply StronglySorted_weaken;
        [|apply (@sort_by_sorted _ weight_before weight_before_total
                   weight_before_trans)].
      intros a b. unfold weight_before. apply Qle_bool_iff.
    + apply filter_perm, sort_by_perm.
    + apply Forall_forall. intros x Hx. apply filter_In in Hx as [_ Hx].
      now apply is_positive_iff.
Qed.

Variable resume_text job_text : str.

Lemma keyword_match_eq :
  extract_keywords tfidf_features job_text 30 <> [] ->
  calculate_keyword_match tfidf_features resume_text job_text
  = let matched := matched_keywords tfidf_features resume_text job_text in
    let missing := missing_keywords tfidf_features resume_text job_text in
    let job_keywords := extract_keywords tfidf_features job_text 30 in
    let match_percentage :=
      (nat_Q (length matched) / nat_Q (length job_keywords)) * 100 in
    {| km_score := match_percentage;
       km_matched := firstn 15 matched;
       km_missing := firstn 10 missing;
       km_total_required := length job_keywords;
       km_total_matched := Some (length matched);
       km_percentage := match_percentage |}.
Proof.
  intros H. unfold calculate_keyword_match.
  destruct (extract_keywords tfidf_features job_text 30); [congruence|].
  reflexivity.
Qed.

Lemma keyword_lists_length :
  (length (matched_keywords tfidf_features resume_text job_text)
   + length (missing_keywords tfidf_features resume_text job_text))%nat
  = length (extract_keywords tfidf_features job_text 30).
Proof. unfold matched_keywords, missing_keywords. apply filter_partition_length. Qed.

(** X15.  When the job text has keywords, the keyword score lies between 0
    and 100; every job keyword is either matched or missing, never both;
    the score is 100 exactly when no keyword is missing and 0 exactly when
    none is matched.  The lists returned hold at most 15 matched and 10
    missing keywords.  When the job text has no keyword the score is 0. *)
Theorem keyword_match_partition :
  let result := calculate_keyword_match tfidf_features resume_text job_text in
  let matched := matched_keywords tfidf_features resume_text job_text in
  let missing := missing_keywords tfidf_features resume_text job_text in
  let job_keywords := extract_keywords tfidf_features job_text 30 in
  (job_keywords = [] -> km_score result = 0 /\ km_total_required result = 0%nat)
  /\ (job_keywords <> [] ->
      0 <= km_score result /\ km_score result <= 100
      /\ km_total_required result = (length matched + length missing)%nat
      /\ (km_score result == 100 <-> missing = [])
      /\ (km_score result == 0 <-> matched = []))
  /\ (forall kw, In kw job_keywords -> (In kw matched <-> ~ In kw missing))
  /\ (length (km_matched result) <= 15)%nat
  /\ (length (km_missing result) <= 10)%nat.
Proof.
  cbv zeta. split; [|split; [|split]].
  - intros E. unfold calculate_keyword_match. rewrite E. split; reflexivity.
  - intros Hne. rewrite (keyword_match_eq Hne). cbv zeta.
    cbn [km_score km_total_required].
    pose proof keyword_lists_length as L.
    assert (Hpos : (0 < length (extract_keywords tfidf_features job_text 30))%nat).
    { destruct (extract_keywords tfidf_features job_text 30);
        [congruence | simpl; lia]. }
    split; [apply percent_nonneg|].
    split; [apply (percent_le_100 _ Hpos); lia|].
    split; [lia|]. split.
    + rewrite (percent_eq_100 _ Hpos), <- length_zero_iff_nil. lia.
    + rewrite (percent_eq_0 _ Hpos), <- length_zero_iff_nil. lia.
  - intros kw Hkw. unfold matched_keywords, missing_keywords.
    rewrite !filter_In, negb_true_iff.
    destruct (mem kw (extract_keywords tfidf_features resume_text 50));
      intuition congruence.
  - unfold calculate_keyword_match.
    destruct (is_nil (extract_keywords tfidf_features job_text 30));
      cbn [km_matched km_missing]; split;
      try apply firstn_le_length; simpl; lia.
Qed.

End KeywordsMore.


(** ** The distributions *)

Section DistributionFacts.

Lemma str_eqb_refl a : str_eqb a a = true.
Proof. now apply str_eqb_eq. Qed.

Lemma str_eqb_neq a b : a <> b -> str_eqb a b = false.
Proof.
  intros H. destruct (str_eqb a b) eqn:E; auto.
  apply str_eqb_eq in E. congruence.
Qed.

Lemma dict_get_incr_same key d :
  dict_get key (dict_incr key d) = S (dict_get key d).
Proof.
  induction d as [|[k n] r IH]; simpl.
  - now rewrite str_eqb_refl.
  - destruct (str_eqb k key) eqn:E; simpl; rewrite E; auto.
Qed.

Lemma dict_get_incr_other key key' d :
  key' <> key -> dict_get key' (dict_incr key d) = dict_get key' d.
Proof.
  intros Hne. induction d as [|[k n] r IH]; simpl.
  - now rewrite str_eqb_neq by congruence.
  - destruct (str_eqb k key) eqn:E; simpl.
    + apply str_eqb_eq in E. subst k.
      now rewrite str_eqb_neq by congruence.
    + now rewrite IH.
Qed.

Lemma dict_incr_keys key d :
  map fst (dict_incr key d)
  = if mem key (map fst d) then map fst d else map fst d ++ [key].
Proof.
  induction d as [|[k n] r IH]; simpl; auto.
  destruct (str_eqb k key) eqn:E; simpl.
  - apply str_eqb_eq in E. subst k. now rewrite str_eqb_refl.
  - rewrite IH.
    assert (E' : str_eqb key k = false).
    { apply str_eqb_neq. intros ->. now rewrite str_eqb_refl in E. }
    rewrite E'. simpl. now destruct (mem key (map fst r)).
Qed.

Lemma dict_incr_NoDup key d :
  NoDup (map fst d) -> NoDup (map fst (dict_incr key d)).
Proof.
  intros H. rewrite dict_incr_keys.
  destruct (mem key (map fst d)) eqn:M; auto.
  apply NoDup_app; auto.
  - repeat constructor. intros [].
  - intros x Hx [<-|[]]. apply mem_In in Hx. congruence.
Qed.

Lemma dict_incr_sum key d :
  list_sum (map snd (dict_incr key d)) = S (list_sum (map snd d)).
Proof.
  induction d as [|[k n] r IH]; simpl; auto.
  destruct (str_eqb k key); simpl; [reflexivity|]. rewrite IH. lia.
Qed.

Lemma dict_incr_positive key d :
  Forall (fun e => (0 < snd e)%nat) d ->
  Forall (fun e => (0 < snd e)%nat) (dict_incr key d).
Proof.
  induction 1 as [|[k n] r Hn Hr IH]; simpl.
  - repeat constructor.
  - destruct (str_eqb k key); constructor; auto. simpl. lia.
Qed.

Lemma dict_incr_truthy key d :
  key <> [] ->
  Forall (fun e => fst e <> []) d ->
  Forall (fun e => fst e <> []) (dict_incr key d).
Proof.
  intros Hk. induction 1 as [|[k n] r Hn Hr IH]; simpl.
  - repeat constructor. exact Hk.
  - destruct (str_eqb k key); constructor; auto.
Qed.

Lemma dict_get_In key n d :
  NoDup (map fst d) -> In (key, n) d -> dict_get key d = n.
Proof.
  induction d as [|[k m] r IH]; simpl; [intros _ []|].
  intros Hnd [E|Hin].
  - injection E as -> ->. now rewrite str_eqb_refl.
  - inversion Hnd as [|? ? Hk Hr]; subst.
    rewrite str_eqb_neq; [now apply IH|].
    intros ->. apply Hk. now apply (in_map fst) in Hin.
Qed.

Lemma In_dict_get key d :
  (0 < dict_get key d)%nat -> In (key, dict_get key d) d.
Proof.
  induction d as [|[k m] r IH]; simpl; [lia|].
  destruct (str_eqb k key) eqn:E.
  - apply str_eqb_eq in E. subst k. now left.
  - intros H. right. now apply IH.
Qed.

Variable field : job -> option str.

Lemma count_from_get key jobs d :
  dict_get key (count_from field d jobs)
  = (dict_get key d
     + count_occ (list_eq_dec ascii_dec) (counted_values field jobs) key)%nat.
Proof.
  revert d; induction jobs as [|j r IH]; intros d; simpl; [lia|].
  unfold count_from in *. simpl. rewrite IH. unfold counted_values. simpl.
  destruct (truthy (get_or_unknown (field j))) eqn:T; [|reflexivity].
  simpl. destruct (list_eq_dec ascii_dec (get_or_unknown (field j)) key) as [E|N].
  - rewrite E, dict_get_incr_same. lia.
  - rewrite dict_get_incr_other by congruence. lia.
Qed.

Lemma count_from_invariants jobs d :
  NoDup (map fst d) ->
  Forall (fun e => (0 < snd e)%nat) d ->
  Forall (fun e => fst e <> []) d ->
  NoDup (map fst (count_from field d jobs))
  /\ Forall (fun e => (0 < snd e)%nat) (count_from field d jobs)
  /\ Forall (fun e => fst e <> []) (count_from field d jobs)
  /\ list_sum (map snd (count_from field d jobs))
     = (list_sum (map snd d) + length (counted_values field jobs))%nat.
Proof.
  revert d; induction jobs as [|j r IH]; intros d Hn Hp Ht; simpl.
  - repeat split; auto.
  - unfold count_from in *. simpl. unfold counted_values in *. simpl.
    destruct (get_or_unknown (field j)) as [|c t] eqn:V; simpl.
    + now apply IH.
    + destruct (IH (dict_incr (c :: t) d)) as (A & B & C & D).
      * now apply dict_incr_NoDup.
      * now apply dict_incr_positive.
      * apply dict_incr_truthy; [discriminate | exact Ht].
      * repeat split; auto. rewrite D, dict_incr_sum. simpl.
        rewrite Nat.add_succ_r. reflexivity.
Qed.

Lemma count_field_eq jobs : count_field field jobs = count_from field [] jobs.
Proof. reflexivity. Qed.

Lemma list_sum_perm l l' : Permutation l l' -> list_sum l = list_sum l'.
Proof.
  induction 1; simpl; lia.
Qed.

Lemma distribution_entry jobs key n :
  In (key, n) (distribution field jobs)
  <-> key <> []
      /\ n = count_occ (list_eq_dec ascii_dec)
               (map (fun j => get_or_unknown (field j)) jobs) key
      /\ (0 < n)%nat.
Proof.
  unfold distribution.
  destruct (@count_from_invariants jobs [] (NoDup_nil _) (Forall_nil _)
              (Forall_nil _)) as (Hnd & Hpos & Htr & _).
  pose proof (count_from_get key jobs []) as G. simpl in G.
  assert (C : count_occ (list_eq_dec ascii_dec) (counted_values field jobs) key
              = if truthy key
                then count_occ (list_eq_dec ascii_dec)
                       (map (fun j => get_or_unknown (field j)) jobs) key
                else 0%nat).
  { unfold counted_values.
    induction (map (fun j => get_or_unknown (field j)) jobs) as [|v r IH];
      simpl; [now destruct (truthy key)|].
    destruct (truthy v) eqn:T; simpl; rewrite IH;
      destruct (list_eq_dec ascii_dec v key) as [E|N]; auto.
    - subst v. now rewrite T.
    - subst v. now rewrite T. }
  rewrite C in G. rewrite count_field_eq.
  split.
  - intros Hin.
    apply (Permutation_in _ (sort_by_perm count_before _)) in Hin.
    pose proof (proj1 (Forall_forall _ _) Hpos _ Hin) as P.
    pose proof (proj1 (Forall_forall _ _) Htr _ Hin) as K.
    simpl in P, K. apply (@dict_get_In key n _ Hnd) in Hin.
    pose proof (eq_trans (eq_sym Hin) G) as Hn.
    destruct key; [congruence|]. simpl in Hn.
    split; [discriminate|]. split; [exact Hn | exact P].
  - intros (K & Hn & P).
    apply (Permutation_in _ (Permutation_sym (sort_by_perm count_before _))).
    destruct key as [|c t]; [congruence|]. simpl in G.
    pose proof (eq_trans G (eq_sym Hn)) as E.
    rewrite <- E. apply In_dict_get. rewrite E. exact P.
Qed.

Lemma distribution_shape jobs :
  StronglySorted (fun a b => (snd b <= snd a)%nat) (distribution field jobs)
  /\ NoDup (map fst (distribution field jobs))
  /\ list_sum (map snd (distribution field jobs))
     = length (filter truthy (map (fun j => get_or_unknown (field j)) jobs)).
Proof.
  unfold distribution.
  destruct (@count_from_invariants jobs [] (NoDup_nil _) (Forall_nil _)
              (Forall_nil _)) as (Hnd & _ & _ & Hsum).
  rewrite count_field_eq.
  pose proof (sort_by_perm count_before (count_from field [] jobs)) as P.
  split; [|split].
  - eapply StronglySorted_weaken;
      [|apply (@sort_by_sorted _ count_before count_before_total
                 count_before_trans)].
    intros a b. apply Nat.leb_le.
  - eapply Permutation_NoDup; [|exact Hnd].
    apply Permutation_map, Permutation_sym, P.
  - etransitivity; [apply list_sum_perm, Permutation_map, P | exact Hsum].
Qed.

End DistributionFacts.

(** X17.  In both distributions a value has the count of the jobs that
    carry it, a job without the field counting as "Unknown"; the empty
    value and values no job carries do not appear. *)
Theorem distribution_counts (jobs : list job) (key : str) (n : nat) :
  (In (key, n) (analyze_job_distribution_by_location jobs)
   <-> key <> []
       /\ n = count_occ (list_eq_dec ascii_dec)
                (map (fun j => get_or_unknown (job_location j)) jobs) key
       /\ (0 < n)%nat)
  /\ (In (key, n) (analyze_job_distribution_by_category jobs)
      <-> key <> []
          /\ n = count_occ (list_eq_dec ascii_dec)
                   (map (fun j => get_or_unknown (category j)) jobs) key
          /\ (0 < n)%nat).
Proof.
  split.
  - apply (distribution_entry job_location).
  - apply (distribution_entry category).
Qed.

(** X18.  Both distributions come in descending order of count, name each
    value once, and their counts add up to the number of jobs whose value
    is not empty. *)
Theorem distribution_sorted_total (jobs : list job) :
  (StronglySorted (fun a b => (snd b <= snd a)%nat)
     (analyze_job_distribution_by_location jobs)
   /\ NoDup (map fst (analyze_job_distribution_by_location jobs))
   /\ list_sum (map snd (analyze_job_distribution_by_location jobs))
      = length (filter truthy
                  (map (fun j => get_or_unknown (job_location j)) jobs)))
  /\ (StronglySorted (fun a b => (snd b <= snd a)%nat)
        (analyze_job_distribution_by_category jobs)
      /\ NoDup (map fst (analyze_job_distribution_by_category jobs))
      /\ list_sum (map snd (analyze_job_distribution_by_category jobs))
         = length (filter truthy
                     (map (fun j => get_or_unknown (category j)) jobs))).
Proof.
  split.
  - apply (distribution_shape job_location).
  - apply (distribution_shape category).
Qed.

(** ** The salary statistics, further *)

Section SalaryMore.

Lemma fold_min_spec r x :
  let m := fold_left (fun m y => if negb (Qle_bool m y) then y else m) r x in
  In m (x :: r) /\ forall y, In y (x :: r) -> m <= y.
Proof.
  revert x; induction r as [|z r IH]; intros x; cbv zeta.
  - simpl. split; [now left|]. intros y [<-|[]]. apply Qle_refl.
  - simpl fold_left. destruct (Qle_bool x z) eqn:E; cbn [negb].
    + destruct (IH x) as [Hin Hle]. split.
      * destruct Hin as [Hin|Hin]; [left; exact Hin | right; right; exact Hin].
      * intros y [<-|[<-|Hy]].
        -- apply Hle. now left.
        -- apply Qle_bool_iff in E. eapply Qle_trans; [|exact E].
           apply Hle. now left.
        -- apply Hle. now right.
    + destruct (IH z) as [Hin Hle]. split.
      * destruct Hin as [Hin|Hin]; [right; left; exact Hin
                                   | right; right; exact Hin].
      * assert (Hzx : z <= x).
        { destruct (Qlt_le_dec z x) as [L|L]; [now apply Qlt_le_weak|].
          apply Qle_bool_iff in L. congruence. }
        intros y [<-|[<-|Hy]].
        -- eapply Qle_trans; [|exact Hzx]. apply Hle. now left.
        -- apply Hle. now left.
        -- apply Hle. now right.
Qed.

Lemma fold_max_spec r x :
  let m := fold_left (fun m y => if negb (Qle_bool y m) then y else m) r x in
  In m (x :: r) /\ forall y, In y (x :: r) -> y <= m.
Proof.
  revert x; induction r as [|z r IH]; intros x; cbv zeta.
  - simpl. split; [now left|]. intros y [<-|[]]. apply Qle_refl.
  - simpl fold_left. destruct (Qle_bool z x) eqn:E; cbn [negb].
    + destruct (IH x) as [Hin Hle]. split.
      * destruct Hin as [Hin|Hin]; [left; exact Hin | right; right; exact Hin].
      * intros y [<-|[<-|Hy]].
        -- apply Hle. now left.
        -- apply Qle_bool_iff in E. eapply Qle_trans; [exact E|].
           apply Hle. now left.
        -- apply Hle. now right.
    + destruct (IH z) as [Hin Hle]. split.
      * destruct Hin as [Hin|Hin]; [right; left; exact Hin
                                   | right; right; exact Hin].
      * assert (Hxz : x <= z).
        { destruct (Qlt_le_dec x z) as [L|L]; [now apply Qlt_le_weak|].
          apply Qle_bool_iff in L. congruence. }
        intros y [<-|[<-|Hy]].
        -- eapply Qle_trans; [exact Hxz|]. apply Hle. now left.
        -- apply Hle. now left.
        -- apply Hle. now right.
Qed.

Lemma salary_statistics_eq jobs :
  pooled_positive jobs <> [] ->
  calculate_salary_statistics jobs
  = let salaries := pooled_positive jobs in
    {| average := sum_Q salaries / nat_Q (length salaries);
       stat_min := list_min salaries;
       stat_max := list_max salaries;
       median := nth (length salaries / 2) (sorted salaries) 0 |}.
Proof.
  intros H. unfold calculate_salary_statistics.
  rewrite collect_salaries_pooled, pooled_positive_refilter.
  destruct (pooled_positive jobs); [congruence | reflexivity].
Qed.

Lemma pooled_positive_positive jobs x :
  In x (pooled_positive jobs) -> 0 < x.
Proof.
  unfold pooled_positive. intros H. apply filter_In in H as [_ H].
  now apply is_positive_iff.
Qed.

(** X19.  When there are positive salaries, the minimum, the median and
    the maximum are all salaries of the pool, they are greater than zero,
    the minimum is at most every salary of the pool and the maximum at
    least every one; so the median lies between the two. *)
Theorem salary_statistics_order (jobs : list job) :
  pooled_positive jobs <> [] ->
  let stats := calculate_salary_statistics jobs in
  In (stat_min stats) (pooled_positive jobs)
  /\ In (median stats) (pooled_positive jobs)
  /\ In (stat_max stats) (pooled_positive jobs)
  /\ (forall x, In x (pooled_positive jobs) ->
                stat_min stats <= x /\ x <= stat_max stats)
  /\ 0 < stat_min stats
  /\ stat_min stats <= median stats /\ median stats <= stat_max stats.
Proof.
  intros Hne stats. subst stats. rewrite (@salary_statistics_eq jobs Hne).
  cbv zeta. cbn [stat_min stat_max median].
  pose proof (@pooled_positive_positive jobs) as Hpos.
  assert (Hmed : In (nth (length (pooled_positive jobs) / 2)
                         (sorted (pooled_positive jobs)) 0)
                    (pooled_positive jobs)).
  { eapply Permutation_in; [apply sorted_perm|].
    apply nth_In. unfold sorted. rewrite sort_by_length.
    destruct (pooled_positive jobs) as [|x r]; [congruence|].
    apply Nat.div_lt; simpl; lia. }
  destruct (pooled_positive jobs) as [|x r] eqn:E; [congruence|].
  destruct (fold_min_spec r x) as [Imin Lmin].
  destruct (fold_max_spec r x) as [Imax Lmax].
  unfold list_min, list_max.
  repeat split; auto.
Qed.

End SalaryMore.

(** ** The skill demand, further *)

Section SkillDemandMore.

Lemma skill_labels_NoDup : NoDup (map fst Visualizer.skill_keywords).
Proof.
  assert (E : nodup (list_eq_dec ascii_dec) (map fst Visualizer.skill_keywords)
              = map fst Visualizer.skill_keywords) by (vm_compute; reflexivity).
  rewrite <- E. apply NoDup_nodup.
Qed.

Lemma skill_keywords_at_most_four label keywords :
  In (label, keywords) Visualizer.skill_keywords -> (length keywords <= 4)%nat.
Proof.
  intros H.
  assert (C : forallb (fun e : str * list str => length (snd e) <=? 4)
                      Visualizer.skill_keywords = true) by reflexivity.
  rewrite forallb_forall in C. specialize (C _ H). simpl in C.
  now apply Nat.leb_le.
Qed.

(** The labels that come out of one pass over a table are labels of the
    table, in the order of the table. *)
Lemma counted_labels_NoDup (corpus : str) (table : list (str * list str)) :
  NoDup (map fst table) ->
  NoDup (map fst
           (flat_map
              (fun entry : str * list str =>
                 let count := keyword_count (snd entry) corpus in
                 if 0 <? count then [(fst entry, count)] else [])
              table))
  /\ incl (map fst
             (flat_map
                (fun entry : str * list str =>
                   let count := keyword_count (snd entry) corpus in
                   if 0 <? count then [(fst entry, count)] else [])
                table))
          (map fst table).
Proof.
  induction table as [|[l kws] r IH]; intros Hnd; simpl.
  - split; [constructor | intros x []].
  - inversion Hnd as [|? ? Hl Hr]; subst.
    destruct (IH Hr) as [N I].
    destruct (0 <? keyword_count kws corpus); simpl.
    + split.
      * constructor; [|exact N]. intros H. apply Hl. apply I. exact H.
      * intros x [<-|Hx]; [now left | right; now apply I].
    + split; auto. intros x Hx. right. now apply I.
Qed.

(** X20.  In the skill demand, a label appears exactly when one of its
    keywords occurs in the joined, lowered descriptions, and its count is
    the number of its keywords that occur there, hence at most 4 however
    many jobs there are.  The labels are distinct, the entries come in
    descending order of count, and there are at most 18 of them. *)
Theorem skill_demand_characterised (jobs : list job) :
  (forall label n,
     In (label, n) (analyze_skill_demand jobs)
     <-> exists keywords,
           In (label, keywords) Visualizer.skill_keywords
           /\ n = keyword_count keywords (job_descriptions jobs)
           /\ (0 < n)%nat)
  /\ (forall label n, In (label, n) (analyze_skill_demand jobs) -> (n <= 4)%nat)
  /\ NoDup (map fst (analyze_skill_demand jobs))
  /\ StronglySorted (fun a b => (snd b <= snd a)%nat) (analyze_skill_demand jobs)
  /\ (length (analyze_skill_demand jobs) <= 18)%nat.
Proof.
  split; [intros label n; apply skill_demand_entry|].
  split.
  { intros label n H. apply skill_demand_entry in H as (kws & Hin & -> & _).
    etransitivity; [apply keyword_count_bound|].
    exact (@skill_keywords_at_most_four label kws Hin). }
  destruct (@counted_labels_NoDup (job_descriptions jobs)
              Visualizer.skill_keywords skill_labels_NoDup) as [N I].
  pose proof (sort_by_perm count_before (skill_counts jobs)) as P.
  split; [|split].
  - eapply Permutation_NoDup; [|exact N].
    apply Permutation_map, Permutation_sym, P.
  - apply skill_demand_sorted.
  - unfold analyze_skill_demand. rewrite sort_by_length.
    rewrite <- (length_map fst).
    etransitivity; [apply (NoDup_incl_length N I)|].
    rewrite length_map. apply Nat.leb_le. reflexivity.
Qed.

End SkillDemandMore.

(** ** The resume parser *)

Lemma resume_preprocess_eq x :
  ResumeParser.preprocess_text x = Recommender.preprocess_text x.
Proof. destruct x; reflexivity. Qed.

(** X21.  The three copies of [preprocess_text] agree on every string,
    although the one of the resume parser has no guard for the empty
    string; so it is idempotent as well, and what it returns is lowered
    already. *)
Theorem resume_preprocess_agrees (x : str) :
  ResumeParser.preprocess_text x = Recommender.preprocess_text x
  /\ ResumeParser.preprocess_text x = AtsScorer.preprocess_text x
  /\ ResumeParser.preprocess_text (ResumeParser.preprocess_text x)
     = ResumeParser.preprocess_text x
  /\ lower (ResumeParser.preprocess_text x) = ResumeParser.preprocess_text x.
Proof.
  split; [apply resume_preprocess_eq|].
  split; [rewrite resume_preprocess_eq; symmetry; apply preprocess_text_same|].
  rewrite !resume_preprocess_eq.
  pose proof (recommender_preprocess_normal x) as N.
  split; [now apply recommender_preprocess_fixed|].
  apply lower_plain. unfold normal in N.
  apply andb_true_iff in N as [N _]. apply andb_true_iff in N as [N _].
  apply andb_true_iff in N as [N _]. exact N.
Qed.

Lemma resume_preprocess_lowered x :
  lower (ResumeParser.preprocess_text x) = ResumeParser.preprocess_text x.
Proof.
  rewrite resume_preprocess_eq.
  pose proof (recommender_preprocess_normal x) as N.
  apply lower_plain. unfold normal in N.
  apply andb_true_iff in N as [N _]. apply andb_true_iff in N as [N _].
  apply andb_true_iff in N as [N _]. exact N.
Qed.

(** The vocabulary of the resume parser is written in lower case; the
    title form of a word lowers and strips back to the word. *)
Lemma TECH_SKILLS_shape skill :
  In skill ResumeParser.TECH_SKILLS ->
  lower skill = skill
  /\ strip (lower (ResumeParser.title skill)) = skill
  /\ ResumeParser.title skill <> [].
Proof.
  intros H.
  assert (C : forallb
                (fun e => str_eqb (lower e) e
                          && str_eqb (strip (lower (ResumeParser.title e))) e
                          && truthy (ResumeParser.title e))%bool
                ResumeParser.TECH_SKILLS = true) by (vm_compute; reflexivity).
  rewrite forallb_forall in C. specialize (C skill H).
  apply andb_true_iff in C as [C T]. apply andb_true_iff in C as [L S].
  apply str_eqb_eq in L, S. repeat split; auto.
  intros E. rewrite E in T. discriminate T.
Qed.

Lemma skill_keywords_in_TECH_SKILLS skill :
  In skill RecommenderCore.skill_keywords -> In skill ResumeParser.TECH_SKILLS.
Proof.
  intros H.
  assert (C : forallb (fun e => mem e ResumeParser.TECH_SKILLS)
                      RecommenderCore.skill_keywords = true)
    by (vm_compute; reflexivity).
  rewrite forallb_forall in C. apply mem_In. exact (C skill H).
Qed.

Section ResumeSkills.

Variable list_of_set : list str -> list str.
Hypothesis Hset : set_listing list_of_set.
Variable spacy_entities : str -> option (list (str * str)).

Lemma found_skills_known text skill :
  In skill ResumeParser.TECH_SKILLS ->
  contains skill (ResumeParser.preprocess_text text) = true ->
  In (ResumeParser.title skill) (ResumeParser.found_skills spacy_entities text).
Proof.
  intros Hin Hc. unfold ResumeParser.found_skills. cbv zeta.
  apply in_or_app. left. apply in_map. apply filter_In. split; [exact Hin|].
  destruct (TECH_SKILLS_shape Hin) as (L & _ & _).
  rewrite L, resume_preprocess_lowered. exact Hc.
Qed.

Lemma extract_skills_In text s :
  text <> [] ->
  (In s (ResumeParser.extract_skills list_of_set spacy_entities text)
   <-> In s (ResumeParser.found_skills spacy_entities text)).
Proof.
  intros Ht. unfold ResumeParser.extract_skills.
  destruct text; [congruence|]. cbn [truthy negb].
  apply (proj2 (Hset _)).
Qed.

(** X22.  [extract_skills] returns nothing for an empty text and never
    names a skill twice.  Every word of the vocabulary that occurs in the
    normalised text is returned, in title case; when no entity recogniser
    is at hand these are all the skills returned. *)
Theorem extract_skills_known (text : str) :
  ResumeParser.extract_skills list_of_set spacy_entities [] = []
  /\ NoDup (ResumeParser.extract_skills list_of_set spacy_entities text)
  /\ (text <> [] ->
      forall skill,
        In skill ResumeParser.TECH_SKILLS ->
        contains skill (ResumeParser.preprocess_text text) = true ->
        In (ResumeParser.title skill)
           (ResumeParser.extract_skills list_of_set spacy_entities text))
  /\ (text <> [] ->
      spacy_entities (ResumeParser.preprocess_text text) = None ->
      forall s,
        In s (ResumeParser.extract_skills list_of_set spacy_entities text)
        <-> exists skill,
              In skill ResumeParser.TECH_SKILLS
              /\ contains skill (ResumeParser.preprocess_text text) = true
              /\ s = ResumeParser.title skill).
Proof.
  split; [reflexivity|]. split; [|split].
  - unfold ResumeParser.extract_skills.
    destruct (negb (truthy text)); [constructor | apply (proj1 (Hset _))].
  - intros Ht skill Hin Hc. apply (extract_skills_In _ Ht).
    now apply found_skills_known.
  - intros Ht Hnone s. rewrite (extract_skills_In _ Ht).
    unfold ResumeParser.found_skills. cbv zeta. rewrite Hnone, app_nil_r.
    rewrite in_map_iff. split.
    + intros (skill & <- & Hf). apply filter_In in Hf as [Hin Hc].
      destruct (TECH_SKILLS_shape Hin) as (L & _ & _).
      rewrite L, resume_preprocess_lowered in Hc.
      exists skill. repeat split; auto.
    + intros (skill & Hin & Hc & ->). exists skill. split; [reflexivity|].
      apply filter_In. split; [exact Hin|].
      destruct (TECH_SKILLS_shape Hin) as (L & _ & _).
      rewrite L, resume_preprocess_lowered. exact Hc.
Qed.

(** X23.  From the resume to the gaps: when the skills extracted from a
    resume text are taken as the user's skills, no vocabulary skill that
    occurs in the normalised resume text is reported as a gap, for any job
    description. *)
Theorem resume_skills_never_gaps (text job_description g : str) :
  In g (identify_skill_gaps list_of_set
          (ResumeParser.extract_skills list_of_set spacy_entities text)
          job_description) ->
  contains g (ResumeParser.preprocess_text text) = false.
Proof.
  intros Hg. apply (identify_skill_gaps_subset Hset) in Hg.
  apply missing_skills_spec in Hg as (Hv & _ & Hn).
  destruct (contains g (ResumeParser.preprocess_text text)) eqn:C;
    [|reflexivity].
  exfalso. apply Hn.
  pose proof (skill_keywords_in_TECH_SKILLS Hv) as Ht.
  destruct (TECH_SKILLS_shape Ht) as (_ & S & T).
  assert (Hne : text <> []).
  { intros ->. destruct (skill_keywords_shape Hv) as (_ & _ & Hg0).
    destruct g; [congruence | discriminate C]. }
  unfold user_skills_set. rewrite <- S.
  apply in_map with (f := fun skill => strip (lower skill)).
  apply filter_In. split.
  - apply (extract_skills_In _ Hne). now apply found_skills_known.
  - destruct (ResumeParser.title g); [congruence | reflexivity].
Qed.

End ResumeSkills.

(** ** The education and experience mentions of a resume *)

Lemma lstrip_nil_spaces s :
  lstrip s = [] -> Forall (fun c => is_space c = true) s.
Proof.
  induction s as [|c r IH]; simpl; [constructor|].
  destruct (is_space c) eqn:S; [|discriminate].
  intros H. constructor; auto.
Qed.

Lemma rstrip_nil_spaces s :
  rstrip s = [] -> Forall (fun c => is_space c = true) s.
Proof.
  induction s as [|c r IH]; simpl; [constructor|].
  destruct (rstrip r) as [|d t]; [|discriminate].
  destruct (is_space c) eqn:S; [|discriminate].
  intros _. constructor; auto.
Qed.

Lemma strip_nil_spaces s :
  strip s = [] -> Forall (fun c => is_space c = true) s.
Proof.
  unfold strip. intros H. apply rstrip_nil_spaces in H.
  apply lstrip_nil_spaces.
  pose proof (lstrip_head s) as Hd.
  destruct (lstrip s) as [|c t]; [reflexivity|].
  inversion H as [|? ? Hc _]; subst. simpl in Hd. rewrite Hc in Hd.
  discriminate Hd.
Qed.

Lemma startswith_first c p s : startswith (c :: p) s = true -> In c s.
Proof.
  destruct s as [|d t]; simpl; [discriminate|].
  intros H. apply andb_true_iff in H as [H _].
  apply Ascii.eqb_eq in H. now left.
Qed.

Lemma contains_first c p s : contains (c :: p) s = true -> In c s.
Proof.
  induction s as [|d t IH]; [discriminate|].
  cbn [contains]. intros H. apply orb_true_iff in H as [H|H].
  - now apply startswith_first in H.
  - right. now apply IH.
Qed.

Lemma In_join_space c part parts :
  In part parts -> In c part -> In c (join_space parts).
Proof.
  intros Hp Hc. induction parts as [|p r IH]; [destruct Hp|].
  destruct Hp as [->|Hp].
  - destruct r; simpl; [exact Hc|]. apply in_or_app. now left.
  - specialize (IH Hp). destruct r as [|q r']; [destruct Hp|].
    change (join_space (p :: q :: r'))
      with (p ++ space :: join_space (q :: r')).
    apply in_or_app. right. right. exact IH.
Qed.

Lemma slice_In (A : Type) (a b : nat) (pre post : list A) (x : A) :
  (a <= length pre)%nat -> (length pre < b)%nat ->
  In x (ResumeParser.slice a b (pre ++ x :: post)).
Proof.
  intros Ha Hb. unfold ResumeParser.slice.
  rewrite skipn_app.
  replace (a - length pre)%nat with 0%nat by lia. simpl skipn.
  rewrite firstn_app. apply in_or_app. right.
  rewrite length_skipn.
  destruct (b - a - (length pre - a))%nat as [|k] eqn:E; [lia|].
  now left.
Qed.

Lemma is_space_lower c : is_space (lower_char c) = is_space c.
Proof. destruct c as [[] [] [] [] [] [] [] []]; reflexivity. Qed.

Section Mentions.

Variable keywords : list str.
Variable after : nat.
Hypothesis keywords_solid : forallb solid keywords = true.
Hypothesis after_positive : (1 <= after)%nat.

Lemma names_keyword_solid line :
  names_keyword keywords line = true -> exists c, In c line /\ is_space c = false.
Proof.
  unfold names_keyword. intros H.
  apply existsb_exists in H as (k & Hk & Hc).
  rewrite forallb_forall in keywords_solid.
  specialize (keywords_solid k Hk).
  destruct k as [|c0 p]; [discriminate|]. simpl in keywords_solid.
  apply negb_true_iff in keywords_solid.
  apply contains_first in Hc. unfold lower in Hc.
  apply in_map_iff in Hc as (c & E & Hin).
  exists c. split; [exact Hin|].
  now rewrite <- is_space_lower, E.
Qed.

Lemma mentions_none lines i rest :
  (forall line, In line rest -> names_keyword keywords line = false) ->
  ResumeParser.mentions keywords after lines i rest = [].
Proof.
  revert i; induction rest as [|line rest' IH]; intros i H; simpl; auto.
  fold (names_keyword keywords line). rewrite (H line) by now left.
  simpl. apply IH. intros l Hl. apply H. now right.
Qed.

Lemma mentions_some pre rest :
  (exists line, In line rest /\ names_keyword keywords line = true) ->
  exists m ms,
    ResumeParser.mentions keywords after (pre ++ rest) (length pre) rest
    = m :: ms
    /\ m <> [].
Proof.
  revert pre; induction rest as [|line rest' IH]; intros pre (l & Hl & Hn);
    [destruct Hl|].
  simpl ResumeParser.mentions. fold (names_keyword keywords line).
  destruct (names_keyword keywords line) eqn:N.
  - eexists. eexists. split; [reflexivity|].
    intros E. apply strip_nil_spaces in E.
    destruct (names_keyword_solid _ N) as (c & Hc & Sc).
    rewrite Forall_forall in E.
    rewrite (E c) in Sc; [discriminate|].
    apply In_join_space with (part := line); [|exact Hc].
    apply slice_In; [lia|].
    rewrite length_app. simpl. lia.
  - destruct Hl as [->|Hl]; [congruence|].
    destruct (IH (pre ++ [line])) as (m & ms & E & Hm).
    { exists l. split; assumption. }
    rewrite <- app_assoc, length_app in E. simpl in E.
    rewrite Nat.add_1_r in E.
    exists m, ms. split; [exact E | exact Hm].
Qed.

Lemma join_semicolon_nonempty m ms n :
  m <> [] -> ResumeParser.join_semicolon (firstn (S n) (m :: ms)) <> [].
Proof.
  intros Hm. simpl firstn. destruct m as [|c t]; [congruence|].
  destruct (firstn n ms); discriminate.
Qed.

(** The shape of [extract_education] and of [extract_experience]. *)
Lemma mentions_empty_iff (text : str) (limit : nat) :
  let lines := split ResumeParser.is_newline text in
  ResumeParser.join_semicolon
    (firstn (S limit) (ResumeParser.mentions keywords after lines 0 lines)) = []
  <-> forall line, In line lines -> names_keyword keywords line = false.
Proof.
  cbv zeta. set (lines := split ResumeParser.is_newline text). split.
  - intros H line Hin. destruct (names_keyword keywords line) eqn:N; [|reflexivity].
    exfalso.
    destruct (@mentions_some [] lines) as (m & ms & E & Hm).
    { exists line. split; assumption. }
    simpl in E. rewrite E in H. revert H. now apply join_semicolon_nonempty.
  - intros H. now rewrite mentions_none.
Qed.

End Mentions.

(** X24.  The education extracted from a resume text is empty exactly
    when no line of the text names an education keyword, in whatever case;
    and likewise the experience with the experience keywords. *)
Theorem extract_mentions_empty_iff (text : str) :
  (ResumeParser.extract_education text = []
   <-> forall line,
         In line (split ResumeParser.is_newline text) ->
         names_keyword ResumeParser.education_keywords line = false)
  /\ (ResumeParser.extract_experience text = []
      <-> forall line,
            In line (split ResumeParser.is_newline text) ->
            names_keyword ResumeParser.experience_keywords line = false).
Proof.
  split.
  - apply (@mentions_empty_iff ResumeParser.education_keywords 2);
      [reflexivity | lia].
  - apply (@mentions_empty_iff ResumeParser.experience_keywords 3);
      [reflexivity | lia].
Qed.

(** ** The upload filter and the file dispatch *)

Lemma startswith_app p s :
  startswith p s = true <-> exists t, s = p ++ t.
Proof.
  revert s; induction p as [|a p IH]; intros s; simpl.
  - split; [intros _; now exists s | reflexivity].
  - destruct s as [|b s];
      [split; [discriminate | intros (t & E); discriminate E]|].
    rewrite andb_true_iff, Ascii.eqb_eq, IH. split.
    + intros (-> & t & ->). now exists t.
    + intros (t & E). injection E as -> ->.
      split; [reflexivity | now exists t].
Qed.

Lemma endswith_app suffix s :
  ResumeParser.endswith suffix s = true <-> exists pre, s = pre ++ suffix.
Proof.
  unfold ResumeParser.endswith. rewrite startswith_app. split.
  - intros (t & E). exists (rev t).
    rewrite <- (rev_involutive s), E, rev_app_distr, rev_involutive.
    reflexivity.
  - intros (pre & ->). exists (rev pre). apply rev_app_distr.
Qed.

Lemma contains_dot pre ext :
  contains ["."%char] (pre ++ "."%char :: ext) = true.
Proof.
  induction pre as [|c r IH].
  - reflexivity.
  - change ((c :: r) ++ "."%char :: ext) with (c :: (r ++ "."%char :: ext)).
    cbn [contains]. rewrite IH. apply orb_true_r.
Qed.

Lemma after_last_dot_none s :
  App.after_last_dot s = None <-> forall c, In c s -> App.is_dot c = false.
Proof.
  induction s as [|c r IH]; simpl.
  - split; [intros _ c [] | reflexivity].
  - destruct (App.after_last_dot r) as [e|].
    + split; [discriminate|]. intros H.
      apply IH. intros d Hd. apply H. now right.
    + destruct (App.is_dot c) eqn:D.
      * split; [discriminate|]. intros H.
        rewrite (H c) in D by now left. discriminate D.
      * split; [|reflexivity]. intros _ d [<-|Hd]; [exact D|].
        now apply (proj1 IH).
Qed.

Lemma after_last_dot_some s ext :
  App.after_last_dot s = Some ext
  <-> exists base, s = base ++ "."%char :: ext
                   /\ forall c, In c ext -> App.is_dot c = false.
Proof.
  revert ext; induction s as [|c r IH]; intros ext; simpl.
  - split; [discriminate|]. intros (base & E & _).
    destruct base; discriminate E.
  - destruct (App.after_last_dot r) as [e|] eqn:A.
    + split.
      * intros E. injection E as ->.
        destruct (proj1 (IH ext) eq_refl) as (base & -> & H).
        exists (c :: base). split; [reflexivity | exact H].
      * intros (base & E & H). f_equal.
        destruct base as [|b base]; simpl in E; injection E as -> ->.
        -- apply after_last_dot_none in H. congruence.
        -- assert (S : Some e = Some ext)
             by (apply IH; exists base; split; [reflexivity | exact H]).
           now injection S.
    + pose proof (proj1 (after_last_dot_none r) A) as N.
      destruct (App.is_dot c) eqn:D.
      * apply Ascii.eqb_eq in D. subst c. split.
        -- intros E. injection E as <-. exists []. split; [reflexivity | exact N].
        -- intros (base & E & H). f_equal.
           destruct base as [|b base]; simpl in E.
           ++ injection E as E2. exact E2.
           ++ injection E as E1 E2. exfalso. subst r.
              assert (F : App.is_dot "."%char = false)
                by (apply N, in_or_app; right; now left).
              discriminate F.
      * split; [discriminate|]. intros (base & E & H). exfalso.
        destruct base as [|b base]; simpl in E; injection E as E1 E2.
        -- subst c. discriminate D.
        -- subst r.
           assert (F : App.is_dot "."%char = false)
             by (apply N, in_or_app; right; now left).
           discriminate F.
Qed.

(** X26.  A file name is allowed exactly when it has a dot and what
    follows its last dot is, in lower case, [pdf], [docx] or [doc]. *)
Theorem allowed_file_characterised (filename : str) :
  App.allowed_file filename = true
  <-> exists base ext,
        filename = base ++ "."%char :: ext
        /\ (forall c, In c ext -> App.is_dot c = false)
        /\ In (lower ext) App.ALLOWED_EXTENSIONS.
Proof.
  unfold App.allowed_file. rewrite andb_true_iff. split.
  - intros [_ H].
    destruct (App.after_last_dot filename) as [ext|] eqn:A; [|discriminate].
    apply after_last_dot_some in A as (base & -> & N).
    exists base, ext. repeat split; auto. now apply mem_In.
  - intros (base & ext & -> & N & Hin). split.
    + apply contains_dot.
    + assert (A : App.after_last_dot (base ++ "."%char :: ext) = Some ext)
        by (apply after_last_dot_some; exists base; split; [reflexivity | exact N]).
      rewrite A. now apply mem_In.
Qed.

Lemma allowed_file_suffix pre ext :
  (forall c, In c ext -> App.is_dot c = false) ->
  mem (lower ext) App.ALLOWED_EXTENSIONS = true ->
  App.allowed_file (pre ++ "."%char :: ext) = true.
Proof.
  intros N Hm. unfold App.allowed_file.
  assert (A : App.after_last_dot (pre ++ "."%char :: ext) = Some ext)
    by (apply after_last_dot_some; exists pre; split; [reflexivity | exact N]).
  rewrite A, Hm. change (py ".") with ["."%char]. rewrite contains_dot.
  reflexivity.
Qed.

Section Dispatch.

Variable extract_text_from_pdf extract_text_from_docx : str -> str.

(** X25.  The resume parser reads only files the upload filter allows: for
    a path that [allowed_file] refuses, [extract_text_from_resume] returns
    the empty text without calling a reader.  The converse does not hold:
    the filter lowers the extension and the parser does not, so a file
    named [CV.PDF] passes the filter and yet gives the empty text. *)
Theorem extract_text_requires_allowed :
  (forall file_path,
     App.allowed_file file_path = false ->
     ResumeParser.extract_text_from_resume extract_text_from_pdf
       extract_text_from_docx file_path = [])
  /\ App.allowed_file (py "CV.PDF") = true
  /\ ResumeParser.extract_text_from_resume extract_text_from_pdf
       extract_text_from_docx (py "CV.PDF") = [].
Proof.
  split; [|split; reflexivity].
  intros path H. unfold ResumeParser.extract_text_from_resume.
  destruct (ResumeParser.endswith (py ".pdf") path) eqn:P.
  { apply endswith_app in P as (pre & ->).
    change (py ".pdf") with ("."%char :: py "pdf") in H.
    rewrite (@allowed_file_suffix pre (py "pdf")) in H; [discriminate H| |].
    - intros c Hc. simpl in Hc.
      repeat (destruct Hc as [<-|Hc]; [reflexivity|]). destruct Hc.
    - reflexivity. }
  destruct (ResumeParser.endswith (py ".docx") path) eqn:D.
  { apply endswith_app in D as (pre & ->).
    change (py ".docx") with ("."%char :: py "docx") in H.
    rewrite (@allowed_file_suffix pre (py "docx")) in H; [discriminate H| |].
    - intros c Hc. simpl in Hc.
      repeat (destruct Hc as [<-|Hc]; [reflexivity|]). destruct Hc.
    - reflexivity. }
  destruct (ResumeParser.endswith (py ".doc") path) eqn:D'.
  { apply endswith_app in D' as (pre & ->).
    change (py ".doc") with ("."%char :: py "doc") in H.
    rewrite (@allowed_file_suffix pre (py "doc")) in H; [discriminate H| |].
    - intros c Hc. simpl in Hc.
      repeat (destruct Hc as [<-|Hc]; [reflexivity|]). destruct Hc.
    - reflexivity. }
  reflexivity.
Qed.

End Dispatch.

(** ** The summary of the ATS page *)

(** X27.  The four counts of the score summary add up to the number of
    results: every score falls in exactly one of the four ranges. *)
Theorem score_range_counts_partition (scores : list Q) :
  (App.excellent_count scores + App.good_count scores
   + App.fair_count scores + App.poor_count scores)%nat
  = length scores.
Proof.
  unfold App.excellent_count, App.good_count, App.fair_count, App.poor_count.
  induction scores as [|s r IH]; [reflexivity|].
  assert (H86 : Qle_bool 80 s = true -> Qle_bool 60 s = true).
  { rewrite !Qle_bool_iff. intros H. eapply Qle_trans; [|exact H]. discriminate. }
  assert (H64 : Qle_bool 60 s = true -> Qle_bool 40 s = true).
  { rewrite !Qle_bool_iff. intros H. eapply Qle_trans; [|exact H]. discriminate. }
  cbn [filter].
  destruct (Qle_bool 80 s) eqn:E8; destruct (Qle_bool 60 s) eqn:E6;
    destruct (Qle_bool 40 s) eqn:E4;
    try (specialize (H86 eq_refl); discriminate H86);
    try (specialize (H64 eq_refl); discriminate H64);
    cbn [andb negb length]; lia.
Qed.

(** ** The job search *)

Section SearchFacts.

Variable Row : Type.
Variable job_id : Row -> str.
Variable get_cached_jobs : Z -> option str -> option str -> list Row.
Variable fetch_jobs_from_api : str -> str -> Z -> list Row.

Variable job_title location : str.
Variable max_results : Z.

(** The answer of the cache and the answer of the API for this search. *)
Let cached : list Row :=
  get_cached_jobs max_results
    (if truthy job_title then Some job_title else None)
    (if truthy location then Some location else None).
Let api_jobs : list Row := fetch_jobs_from_api job_title location max_results.
Let search (use_cache : bool) : list Row :=
  JobFetcher.search_jobs job_id get_cached_jobs fetch_jobs_from_api
    job_title location use_cache max_results.

(** X28.  A search returns at most [max_results] jobs, for a
    [max_results] that is not negative, and every job it returns comes from
    the answer of the cache or from the answer of the API; with the cache
    switched off it returns the first [max_results] jobs of the API
    answer. *)
Theorem search_jobs_bounded (use_cache : bool) :
  ((0 <= max_results)%Z ->
   (Z.of_nat (length (search use_cache)) <= max_results)%Z)
  /\ (forall j, In j (search use_cache) ->
                (use_cache = true /\ In j cached) \/ In j api_jobs)
  /\ search false = slice_to max_results api_jobs.
Proof.
  unfold search, JobFetcher.search_jobs. fold cached. fold api_jobs.
  split; [|split].
  - intros H. rewrite slice_to_length.
    destruct (Z.leb_spec 0 max_results); lia.
  - intros j Hj. apply slice_to_subset in Hj.
    destruct use_cache; cbn [negb orb] in Hj.
    + rewrite orb_false_r in Hj.
      destruct (Z.of_nat (length cached) <? max_results)%Z.
      * apply in_app_or in Hj as [Hj|Hj]; [left; now split|].
        right. now apply filter_In in Hj.
      * left. now split.
    + rewrite orb_true_r in Hj. simpl in Hj.
      right. now apply filter_In in Hj.
  - cbn [negb]. rewrite orb_true_r. simpl.
    f_equal. induction api_jobs as [|j r IH]; simpl; [reflexivity|].
    now rewrite IH.
Qed.

(** X29.  When the cache answers with distinct job ids and so does the
    API, no job id is returned twice: a job of the API whose id the cache
    already gave is left out. *)
Theorem search_jobs_no_duplicate (use_cache : bool) :
  NoDup (map job_id cached) ->
  NoDup (map job_id api_jobs) ->
  NoDup (map job_id (search use_cache)).
Proof.
  intros Hc Ha.
  assert (F : forall ids, NoDup (map job_id
                (filter (fun j => negb (mem (job_id j) ids)) api_jobs))).
  { intros ids. clear Hc. induction api_jobs as [|j r IH]; simpl;
      [constructor|].
    inversion Ha as [|? ? Hj Hr]; subst.
    destruct (negb (mem (job_id j) ids)); [|now apply IH].
    simpl. constructor; [|now apply IH].
    intros H. apply Hj. apply in_map_iff in H as (x & E & Hx).
    apply filter_In in Hx as [Hx _]. rewrite <- E. now apply in_map. }
  unfold search, JobFetcher.search_jobs. fold cached. fold api_jobs.
  rewrite slice_to_map.
  assert (S : forall l : list str, NoDup l -> NoDup (slice_to max_results l)).
  { intros l H. unfold slice_to. destruct (0 <=? max_results)%Z;
      now apply firstn_NoDup. }
  apply S.
  destruct use_cache; cbn [negb].
  - rewrite orb_false_r.
    destruct (Z.of_nat (length cached) <? max_results)%Z; [|exact Hc].
    rewrite map_app. apply NoDup_app; [exact Hc | apply F|].
    intros x Hx Hy. apply in_map_iff in Hy as (j & <- & Hj).
    apply filter_In in Hj as [_ Hj]. apply negb_true_iff in Hj.
    apply mem_In in Hx. congruence.
  - rewrite orb_true_r. cbv iota. cbn [app]. apply F.
Qed.

End SearchFacts.

(** ** The properties at sample data *)

Lemma NoDup_by_nodup (l : list str) :
  nodup (list_eq_dec ascii_dec) l = l -> NoDup l.
Proof. intros E. rewrite <- E. apply NoDup_nodup. Qed.

Lemma recommend_jobs_covers_all_jobs_witness :
  let r := recommend_jobs Samples.by_length first_seen Samples.candidate
             MoreSamples.three_jobs 5 in
  (forall e, In e r -> In (rec_job e) MoreSamples.three_jobs)
  /\ ((Z.of_nat (length MoreSamples.three_jobs) <= 5)%Z ->
      Permutation (map rec_job r) MoreSamples.three_jobs).
Proof.
  apply (@recommend_jobs_covers_all_jobs Samples.by_length first_seen
           Samples.candidate MoreSamples.three_jobs 5%Z).
  - discriminate.
  - vm_compute. discriminate.
Defined.

Lemma recommend_jobs_vectoriser_failure_witness :
  let r := recommend_jobs MoreSamples.failing_vectoriser first_seen
             Samples.candidate MoreSamples.three_jobs 2 in
  map rec_job r = slice_to 2 MoreSamples.three_jobs
  /\ Forall (fun e => similarity_score e = 0) r.
Proof.
  apply (@recommend_jobs_vectoriser_failure MoreSamples.failing_vectoriser
           first_seen Samples.candidate MoreSamples.three_jobs 2%Z).
  - discriminate.
  - vm_compute. discriminate.
  - reflexivity.
Defined.

Lemma recommend_jobs_negative_top_n_witness :
  Z.of_nat (length (recommend_jobs Samples.by_length first_seen
                      Samples.candidate MoreSamples.three_jobs (-1)))
  = Z.max 0 (Z.of_nat (length MoreSamples.three_jobs) + -1).
Proof.
  apply (@recommend_jobs_negative_top_n Samples.by_length first_seen
           Samples.candidate MoreSamples.three_jobs (-1)%Z).
  - discriminate.
  - vm_compute. discriminate.
  - lia.
Defined.

Lemma recommend_jobs_skill_gaps_witness :
  let r := recommend_jobs Samples.by_length first_seen Samples.candidate
             MoreSamples.three_jobs 2 in
  let e := nth 0 r {| rec_job := Samples.dba; similarity_score := 0;
                      skill_gaps := [] |} in
  (length (skill_gaps e) <= 10)%nat
  /\ forall g, In g (skill_gaps e) ->
       In g RecommenderCore.skill_keywords
       /\ contains g (Recommender.preprocess_text
                        (get_or_empty (description (rec_job e)))) = true
       /\ forall u, In u (profile_skills Samples.candidate) -> lower u <> g.
Proof.
  apply (@recommend_jobs_skill_gaps first_seen first_seen_set_listing
           Samples.by_length Samples.candidate MoreSamples.three_jobs 2%Z).
  vm_compute. left. reflexivity.
Defined.

Lemma identify_skill_gaps_complete_witness :
  NoDup (identify_skill_gaps first_seen [py "Python "; py "Git"]
           (py "Need Python, SQL & AWS; docker, GIT"))
  /\ (py "Need Python, SQL & AWS; docker, GIT" <> [] ->
      [py "Python "; py "Git"] <> [] ->
      (length (missing_skills [py "Python "; py "Git"]
                 (py "Need Python, SQL & AWS; docker, GIT")) <= 10)%nat ->
      forall g,
        In g (identify_skill_gaps first_seen [py "Python "; py "Git"]
                (py "Need Python, SQL & AWS; docker, GIT"))
        <-> In g RecommenderCore.skill_keywords
            /\ contains g (Recommender.preprocess_text
                             (py "Need Python, SQL & AWS; docker, GIT")) = true
            /\ ~ In g (user_skills_set [py "Python "; py "Git"])).
Proof.
  apply (@identify_skill_gaps_complete first_seen first_seen_set_listing).
Defined.

Lemma skills_match_all_required_listed_witness :
  let result := calculate_skills_match (SkillsStr (py "Python, SQL"))
                  (py "Need python and sql") in
  sm_missing result = [] /\ sm_score result == 100.
Proof.
  apply (@skills_match_all_required_listed (SkillsStr (py "Python, SQL"))
           (py "Need python and sql")).
  - vm_compute. discriminate.
  - intros k H. vm_compute in H. vm_compute.
    destruct H as [<-|[<-|[]]]; [left | right; left]; reflexivity.
Defined.

Lemma education_match_meets_requirement_witness :
  let result := calculate_education_match (py "Master of Science")
                  (py "Bachelor degree required") in
  em_score result = 100
  /\ exists user_degree,
       em_details result = MeetsRequirement (Some user_degree)
       /\ contains user_degree (lower (py "Master of Science")) = true.
Proof.
  apply (@education_match_meets_requirement (py "Master of Science")
           (py "Bachelor degree required") (py "master") 80%Z).
  - discriminate.
  - right. right. left. reflexivity.
  - reflexivity.
  - exists (py "bachelor"), 60%Z. split; [|reflexivity].
    do 5 right. left. reflexivity.
  - intros d' l' H Hc. simpl in H.
    repeat (destruct H as [H|H];
            [injection H as <- <-; vm_compute in Hc;
             first [discriminate Hc | lia]|]).
    destruct H.
Defined.

Lemma salary_statistics_order_witness :
  let stats := calculate_salary_statistics [Samples.backend; Samples.dba] in
  In (stat_min stats) (pooled_positive [Samples.backend; Samples.dba])
  /\ In (median stats) (pooled_positive [Samples.backend; Samples.dba])
  /\ In (stat_max stats) (pooled_positive [Samples.backend; Samples.dba])
  /\ (forall x, In x (pooled_positive [Samples.backend; Samples.dba]) ->
                stat_min stats <= x /\ x <= stat_max stats)
  /\ 0 < stat_min stats
  /\ stat_min stats <= median stats /\ median stats <= stat_max stats.
Proof.
  apply (@salary_statistics_order [Samples.backend; Samples.dba]).
  vm_compute. discriminate.
Defined.

Lemma extract_skills_known_witness :
  ResumeParser.extract_skills first_seen MoreSamples.no_entities [] = []
  /\ NoDup (ResumeParser.extract_skills first_seen MoreSamples.no_entities
              MoreSamples.resume)
  /\ (MoreSamples.resume <> [] ->
      forall skill,
        In skill ResumeParser.TECH_SKILLS ->
        contains skill (ResumeParser.preprocess_text MoreSamples.resume) = true ->
        In (ResumeParser.title skill)
           (ResumeParser.extract_skills first_seen MoreSamples.no_entities
              MoreSamples.resume))
  /\ (MoreSamples.resume <> [] ->
      MoreSamples.no_entities (ResumeParser.preprocess_text MoreSamples.resume)
      = None ->
      forall s,
        In s (ResumeParser.extract_skills first_seen MoreSamples.no_entities
                MoreSamples.resume)
        <-> exists skill,
              In skill ResumeParser.TECH_SKILLS
              /\ contains skill (ResumeParser.preprocess_text MoreSamples.resume)
                 = true
              /\ s = ResumeParser.title skill).
Proof.
  apply (@extract_skills_known first_seen first_seen_set_listing
           MoreSamples.no_entities MoreSamples.resume).
Defined.

Lemma resume_skills_never_gaps_witness :
  contains (py "docker") (ResumeParser.preprocess_text MoreSamples.resume)
  = false.
Proof.
  apply (@resume_skills_never_gaps first_seen first_seen_set_listing
           MoreSamples.no_entities MoreSamples.resume
           (py "Need python, SQL and Docker") (py "docker")).
  vm_compute. left. reflexivity.
Defined.

Lemma search_jobs_no_duplicate_witness :
  NoDup (map MoreSamples.row_id
           (JobFetcher.search_jobs MoreSamples.row_id MoreSamples.cache_answer
              MoreSamples.api_answer (py "engineer") (py "us") true 50)).
Proof.
  apply (@search_jobs_no_duplicate MoreSamples.row MoreSamples.row_id
           MoreSamples.cache_answer MoreSamples.api_answer
           (py "engineer") (py "us") 50%Z true).
  - apply NoDup_by_nodup. reflexivity.
  - apply NoDup_by_nodup. reflexivity.
Defined.

(** The search above returns the two cached jobs and the one new job of
    the API. *)
Example search_jobs_sample :
  JobFetcher.search_jobs MoreSamples.row_id MoreSamples.cache_answer
    MoreSamples.api_answer (py "engineer") (py "us") true 50
  = [(py "a", 1%nat); (py "b", 2%nat); (py "c", 4%nat)].
Proof. reflexivity. Qed.

(** ** The overall ATS score *)




Section OverallScore.

Variable tfidf_features : str -> nat -> option (list (str * Q)).
Variable tfidf_pair_cosine : str -> str -> option Q.
Variable str_of_list : list str -> str.



End OverallScore.



(** ** The experience match *)

Section ExperienceScore.

Variable tfidf_pair_cosine : str -> str -> option Q.

(** X16.  The experience score is 50 whenever a text is empty or carries
    none of the experience indicator words.  It is below 50 only when both
    texts carry an indicator word and the vectoriser gave a similarity,
    whose hundredfold it then is.  When the similarity the vectoriser
    gives for the two lowered texts lies between 0 and 1, or it raises,
    the score lies between 0 and 100. *)
Theorem experience_match_score (user_experience job_description : str) :
  let result :=
    calculate_experience_match tfidf_pair_cosine user_experience
                               job_description in
  ((user_experience = [] \/ job_description = []
    \/ has_experience_keyword (lower user_experience) = false
    \/ has_experience_keyword (lower job_description) = false) ->
   xm_score result = 50)
  /\ (xm_score result < 50 ->
      has_experience_keyword (lower user_experience) = true
      /\ has_experience_keyword (lower job_description) = true
      /\ exists similarity,
           tfidf_pair_cosine (lower user_experience) (lower job_description)
           = Some similarity
           /\ xm_score result = similarity * 100)
  /\ ((forall similarity,
         tfidf_pair_cosine (lower user_experience) (lower job_description)
         = Some similarity ->
         0 <= similarity /\ similarity <= 1) ->
      0 <= xm_score result /\ xm_score result <= 100).
Proof.
  cbv zeta. unfold calculate_experience_match.
  assert (B50 : 0 <= 50 /\ 50 <= 100)
    by (split; apply Qle_bool_iff; reflexivity).
  assert (N50 : forall P : Prop, 50 < 50 -> P)
    by (intros P H; exfalso; revert H; apply Qle_not_lt, Qle_refl).
  destruct user_experience as [|c r].
  { cbn [truthy negb orb xm_score].
    split; [intros _; reflexivity|]. split; [apply N50 | intros _; exact B50]. }
  destruct job_description as [|c' r'].
  { cbn [truthy negb orb xm_score].
    split; [intros _; reflexivity|]. split; [apply N50 | intros _; exact B50]. }
  cbn [truthy negb orb].
  set (u := lower (c :: r)). set (j := lower (c' :: r')).
  destruct (has_experience_keyword j) eqn:Hj;
    destruct (has_experience_keyword u) eqn:Hu; cbn [andb xm_score];
    try (split; [intros _; reflexivity|];
         split; [apply N50 | intros _; exact B50]).
  destruct (tfidf_pair_cosine u j) as [similarity|] eqn:E.
  - split; [|split].
    + intros [D|[D|[D|D]]]; discriminate D.
    + intros _. split; [reflexivity|]. split; [reflexivity|].
      exists similarity. split; reflexivity.
    + intros R. destruct (R similarity eq_refl) as [L U]. split.
      * apply Qmult_le_0_compat; [exact L | discriminate].
      * setoid_replace 100 with (1 * 100) at 2 by reflexivity.
        apply Qmult_le_compat_r; [exact U | discriminate].
  - split; [|split].
    + intros [D|[D|[D|D]]]; discriminate D.
    + intros D. exfalso. revert D. apply Qle_not_lt. discriminate.
    + intros _. split; discriminate.
Qed.

End ExperienceScore.

(** ** The job search: the cached rows *)

Lemma In_firstn_app (A : Type) (n : nat) (l1 l2 : list A) (x : A) :
  (length l1 <= n)%nat -> In x l1 -> In x (firstn n (l1 ++ l2)).
Proof.
  intros H Hx. rewrite firstn_app. apply in_or_app. left.
  now rewrite firstn_all2.
Qed.

Section SearchCache.

Variable Row : Type.
Variable job_id : Row -> str.
Variable get_cached_jobs : Z -> option str -> option str -> list Row.
Variable fetch_jobs_from_api : str -> str -> Z -> list Row.

Variable job_title location : str.
Variable max_results : Z.

(** X30.  With the cache switched on, a returned job whose id is among the
    ids of the cache answer is a row of the cache answer: the copy the API
    gives of a cached job is never returned.  And when the cache answers
    with at most [max_results] jobs, every job of its answer is
    returned. *)
Theorem search_jobs_cached_row_wins :
  let cached :=
    get_cached_jobs max_results
      (if truthy job_title then Some job_title else None)
      (if truthy location then Some location else None) in
  let result :=
    JobFetcher.search_jobs job_id get_cached_jobs fetch_jobs_from_api
      job_title location true max_results in
  (forall j, In j result -> In (job_id j) (map job_id cached) -> In j cached)
  /\ ((Z.of_nat (length cached) <= max_results)%Z ->
      forall j, In j cached -> In j result).
Proof.
  cbv zeta. unfold JobFetcher.search_jobs. cbn [negb]. rewrite orb_false_r.
  set (cached := get_cached_jobs max_results _ _).
  set (api_jobs := fetch_jobs_from_api job_title location max_results).
  split.
  - intros j Hj Hid. apply slice_to_subset in Hj.
    destruct (Z.of_nat (length cached) <? max_results)%Z; [|exact Hj].
    apply in_app_or in Hj as [Hj|Hj]; [exact Hj|].
    apply filter_In in Hj as [_ Hj]. apply negb_true_iff in Hj.
    apply mem_In in Hid. congruence.
  - intros Hlen j Hj.
    destruct (Z.ltb_spec (Z.of_nat (length cached)) max_results).
    + rewrite slice_to_firstn by lia. apply In_firstn_app; [lia | exact Hj].
    + rewrite slice_to_all by lia. exact Hj.
Qed.

End SearchCache.
